(** * surl: link creation and redirect resolution

    A shallow embedding of the server side of the surl link shortener:
    the server actions [createShortLink] and [getRecentLinks]
    (app/actions/link.ts), the redirect handler [GET] of
    app/[code]/route.ts with its [after] callbacks, and the listing
    handler of app/api/links/route.ts.

    The handlers are asynchronous TypeScript that talks to a Postgres
    table through Prisma and to a Redis cache.  They are written here in a
    small state-and-exception monad over a [World] that holds the table,
    the cache, the wall clock, the random source and a script of what the
    surroundings do at every [await] (latency, a thrown error, writes
    committed by other requests). *)

From stdpp Require Import base option list gmap strings sorting.
From Stdlib Require Import Ascii ZArith Lia.

Local Open Scope string_scope.
Local Open Scope Z_scope.

(** ** Data model *)

(** One row of the Prisma model [Link].  [id] is the cuid primary key,
    kept as an opaque number; timestamps are milliseconds since the epoch;
    [expiresAt] is the nullable [DateTime?] column. *)
Record Link : Type := mkLink {
  id : N;
  url : string;
  shortCode : string;
  createdAt : Z;
  expiresAt : option Z;
  clicks : Z
}.

(** Largest value of the Postgres [integer] column behind [clicks Int]. *)
Definition int4_max : Z := 2147483647.

(** Writes that other requests commit while this one is suspended. *)
Inductive Concurrent : Type :=
| OtherCreate (u c : string) (e : option Z)
| OtherClick (c : string).

(** What happens around one [await]: the time it takes, the writes of
    other requests that land first, and whether the awaited call throws. *)
Record Ambient : Type := mkAmbient {
  latency : N;
  interference : list Concurrent;
  fault : bool
}.

Definition calm : Ambient := mkAmbient 0 [] false.

(** How [prisma.link.update] addresses its row. *)
Inductive Where : Type :=
| ByShortCode (c : string)
| ById (i : N).

(** Calls that leave the handler, in the order they are issued. *)
Inductive Event : Type :=
| EGenerate (c : string)
| EFindUnique (c : string)
| ECreate (u c : string) (e : option Z)
| EFindMany
| EUpdate (target : Where)
| ECacheGet (key : string)
| ECacheSet (key value : string) (ex : Z)
| ERevalidate (path : string)
| EConsoleError (msg : string).

(** The server's time zone as [Date] sees it (ECMAScript's [LocalTZA]):
    the offset of local time from UTC, in milliseconds, at a UTC instant
    and at a local time. *)
Record Zone : Type := mkZone {
  offsetAtUtc : Z -> Z;
  offsetAtLocal : Z -> Z
}.

Record World : Type := mkWorld {
  links : list Link;
  nextId : N;
  cache : gmap string (string * Z);
  clock : Z;
  random : list nat;
  ambient : list Ambient;
  trace : list Event;
  zone : Zone
}.

Definition setLinks (t : list Link) (w : World) : World :=
  mkWorld t (nextId w) (cache w) (clock w) (random w) (ambient w) (trace w) (zone w).

Definition setCache (c : gmap string (string * Z)) (w : World) : World :=
  mkWorld (links w) (nextId w) c (clock w) (random w) (ambient w) (trace w) (zone w).

Definition setRandom (r : list nat) (w : World) : World :=
  mkWorld (links w) (nextId w) (cache w) (clock w) r (ambient w) (trace w) (zone w).

Definition emit (ev : Event) (w : World) : World :=
  mkWorld (links w) (nextId w) (cache w) (clock w) (random w) (ambient w)
          (trace w ++ [ev]) (zone w).

(** Time passing between two requests. *)
Definition elapse (d : N) (w : World) : World :=
  mkWorld (links w) (nextId w) (cache w) (clock w + Z.of_N d) (random w)
          (ambient w) (trace w) (zone w).

(** ** The table *)

Definition hasCode (c : string) (l : Link) : bool := String.eqb (shortCode l) c.

Definition matches (t : Where) (l : Link) : bool :=
  match t with
  | ByShortCode c => hasCode c l
  | ById i => N.eqb (id l) i
  end.

Definition findByCode (c : string) (t : list Link) : option Link :=
  List.find (hasCode c) t.

(** [INSERT] under the unique index on [shortCode]; [id], [createdAt] and
    [clicks] take their column defaults ([cuid()], [now()], [0]). *)
Definition insertRow (u c : string) (e : option Z) (w : World)
  : option (Link * World) :=
  match findByCode c (links w) with
  | Some _ => None
  | None =>
      let l := mkLink (nextId w) u c (clock w) e 0 in
      Some (l, mkWorld (links w ++ [l]) (N.succ (nextId w)) (cache w)
                       (clock w) (random w) (ambient w) (trace w) (zone w))
  end.

Definition bump (l : Link) : Link :=
  mkLink (id l) (url l) (shortCode l) (createdAt l) (expiresAt l) (clicks l + 1).

Inductive Updated : Type :=
| Bumped (t : list Link)
| OutOfRange
| NoSuchRow.

(** [UPDATE "Link" SET clicks = clicks + 1 WHERE ...] on a unique column:
    the first (only) matching row is rewritten from its stored value. *)
Fixpoint incrementRow (t : Where) (rows : list Link) : Updated :=
  match rows with
  | [] => NoSuchRow
  | l :: rest =>
      if matches t l then
        if clicks l <? int4_max then Bumped (bump l :: rest) else OutOfRange
      else
        match incrementRow t rest with
        | Bumped rest' => Bumped (l :: rest')
        | other => other
        end
  end.

Definition commit (c : Concurrent) (w : World) : World :=
  match c with
  | OtherCreate u s e =>
      match insertRow u s e w with
      | Some (_, w') => w'
      | None => w
      end
  | OtherClick s =>
      match incrementRow (ByShortCode s) (links w) with
      | Bumped t => setLinks t w
      | _ => w
      end
  end.

(** ** The monad *)

Inductive Exn : Type :=
| UniqueViolation
| RecordNotFound
| NumericOverflow
| StoreError
| CacheError.

Inductive Res (A : Type) : Type :=
| Ok (a : A)
| Throw (e : Exn).
Arguments Ok {A} a.
Arguments Throw {A} e.

Definition M (A : Type) : Type := World -> Res A * World.

Definition ret {A} (a : A) : M A := fun w => (Ok a, w).

Definition bind {A B} (m : M A) (k : A -> M B) : M B := fun w =>
  match m w with
  | (Ok a, w') => k a w'
  | (Throw e, w') => (Throw e, w')
  end.

(** [try { body } catch (e) { handler }] *)
Definition try_catch {A} (body : M A) (handler : Exn -> M A) : M A := fun w =>
  match body w with
  | (Ok a, w') => (Ok a, w')
  | (Throw e, w') => handler e w'
  end.

Definition get_world : M World := fun w => (Ok w, w).
Definition modify (f : World -> World) : M unit := fun w => (Ok tt, f w).

Notation "'do' x <- m ; k" := (bind m (fun x => k))
  (at level 10, x name, m at level 100, k at level 200).
Notation "'do' ' p <- m ; k" := (bind m (fun x => match x with p => k end))
  (at level 10, p pattern, m at level 100, k at level 200).
Notation "'run' m ; k" := (bind m (fun _ => k))
  (at level 10, m at level 100, k at level 200).

(** One [await] on an outside service: the call is issued, the scripted
    latency elapses, the writes of other requests land, and the call either
    completes or throws [failure]. *)
Definition settle (a : Ambient) (w : World) : World :=
  let w1 := foldl (fun acc c => commit c acc) w (interference a) in
  mkWorld (links w1) (nextId w1) (cache w1) (clock w1 + Z.of_N (latency a))
          (random w1) (tl (ambient w1)) (trace w1) (zone w1).

Definition await (ev : Event) (failure : Exn) : M unit := fun w =>
  let a := hd calm (ambient w) in
  let w' := settle a (emit ev w) in
  if fault a then (Throw failure, w') else (Ok tt, w').

(** [new Date()] and [Date.now()].  Time passes while a call is awaited
    and between requests; the synchronous code in between reads one and
    the same clock. *)
Definition now : M Z := fun w => (Ok (clock w), w).

Definition console_error (msg : string) : M unit := modify (emit (EConsoleError msg)).

(** ** Prisma client ([prisma.link]) *)

Definition prisma_link_findUnique (c : string) : M (option Link) :=
  run await (EFindUnique c) StoreError ;
  do w <- get_world ;
  ret (findByCode c (links w)).

Definition prisma_link_create (u c : string) (e : option Z) : M Link :=
  run await (ECreate u c e) StoreError ;
  fun w =>
    match insertRow u c e w with
    | Some (l, w') => (Ok l, w')
    | None => (Throw UniqueViolation, w)
    end.

(** [prisma.link.update({ where, data: { clicks: { increment: 1 } } })] *)
Definition prisma_link_update (t : Where) : M unit :=
  run await (EUpdate t) StoreError ;
  fun w =>
    match incrementRow t (links w) with
    | Bumped rows => (Ok tt, setLinks rows w)
    | OutOfRange => (Throw NumericOverflow, w)
    | NoSuchRow => (Throw RecordNotFound, w)
    end.

Fixpoint insertDesc (l : Link) (sorted : list Link) : list Link :=
  match sorted with
  | [] => [l]
  | x :: rest =>
      if createdAt x <? createdAt l then l :: x :: rest
      else x :: insertDesc l rest
  end.

Definition newestFirst (rows : list Link) : list Link :=
  foldr insertDesc [] rows.

(** [prisma.link.findMany({ orderBy: { createdAt: "desc" }, take: 10 })] *)
Definition prisma_link_findMany : M (list Link) :=
  run await EFindMany StoreError ;
  do w <- get_world ;
  ret (take 10 (newestFirst (links w))).

(** ** Redis client (lib/redis.ts) *)

(** An entry is a value and the instant at which its [EX] runs out.
    [redis.get<string>(key)] gives the stored text back as a string when
    the text is not JSON, which is so for every url the resolver writes
    that starts with a scheme; the statements that depend on the reply say
    so with [plainText]. *)
Definition redis_get (key : string) : M (option string) :=
  run await (ECacheGet key) CacheError ;
  do w <- get_world ;
  ret (match cache w !! key with
       | Some (v, deadline) => if clock w <? deadline then Some v else None
       | None => None
       end).

(** [redis.set(key, value, { ex })]; Redis refuses a non-positive [EX]. *)
Definition redis_set (key value : string) (ex : Z) : M unit :=
  run await (ECacheSet key value ex) CacheError ;
  fun w =>
    if 0 <? ex
    then (Ok tt, setCache (<[key := (value, clock w + 1000 * ex)]> (cache w)) w)
    else (Throw CacheError, w).

(** ** lib/utils *)

(** Modelled from the spec: the alphabet of lib/utils.ts, which is not
    among the sources; the spec gives it as [A-Za-z0-9]. *)
Definition alphabet : string :=
  "ABCDEFGHIJKLMNOPQRSTUVWXYZabcdefghijklmnopqrstuvwxyz0123456789".

(** [s.charAt(i)] for an index inside [s]. *)
Definition charAt (s : string) (i : nat) : ascii :=
  match String.get i s with
  | Some c => c
  | None => "A"%char
  end.

(** Modelled from the spec: the character loop of the absent
    [generateShortCode], one index lookup into the alphabet per draw. *)
Fixpoint drawChars (n : nat) (rs : list nat) : string * list nat :=
  match n with
  | O => ("", rs)
  | S n' =>
      let c := charAt alphabet (hd 0%nat rs mod 62) in
      let '(s, rs') := drawChars n' (tl rs) in
      (String c s, rs')
  end.

(** Modelled from the spec: lib/utils.ts, which defines
    [generateShortCode], is not among the sources.  The Code Generator
    returns a string of the configured length (6) drawn from the configured
    alphabet ([A-Za-z0-9]) by index lookup with a process-local
    pseudo-random source; [random] holds the successive draws of
    [Math.floor(Math.random() * 62)]. *)
Definition generateShortCode : M string := fun w =>
  let '(c, rs) := drawChars 6 (random w) in
  (Ok c, emit (EGenerate c) (setRandom rs w)).

(** ** Server actions (app/actions/link.ts) *)

(** The object literals the action returns: [{ error }] and
    [{ success: true, link }]; a field that is not written is absent. *)
Record ActionResult : Type := mkResult {
  success : option bool;
  error : option string;
  link : option Link
}.

Definition failed (msg : string) : ActionResult := mkResult None (Some msg) None.
Definition succeeded (l : Link) : ActionResult := mkResult (Some true) None (Some l).

Definition revalidatePath (path : string) : M unit := modify (emit (ERevalidate path)).

Definition msPerDay : Z := 24 * 60 * 60 * 1000.

(** Seven days of twenty-four hours. *)
Definition sevenDays : Z := 7 * msPerDay.

(** [d.setDate(d.getDate() + n)] on the date with time value [t]: the
    local time of [t] is moved by [n] calendar days and read back as an
    instant, each conversion with the offset the zone has there. *)
Definition setDate_plus (z : Zone) (n t : Z) : Z :=
  let local := t + offsetAtUtc z t + n * msPerDay in
  local - offsetAtLocal z local.

Definition get_zone : M Zone := fun w => (Ok (zone w), w).

(** The [for (let i = 0; i < 5; i++)] loop with its [break]; the result is
    the final [shortCode] and [isUnique]. *)
Fixpoint uniqueCodeLoop (tries : nat) (shortCode : string) : M (string * bool) :=
  match tries with
  | O => ret (shortCode, false)
  | S tries' =>
      do c <- generateShortCode ;
      do existing <- prisma_link_findUnique c ;
      match existing with
      | None => ret (c, true)
      | Some _ => uniqueCodeLoop tries' c
      end
  end.

Section Actions.

(** [isValidUrl] of lib/utils.ts, which is not among the sources: any
    total test on strings. *)
Variable isValidUrl : string -> bool.

(** The argument is [formData.get("url")]: [None] when the field is
    missing. *)
Definition createShortLink (formUrl : option string) : M ActionResult :=
  match formUrl with
  | None | Some "" => ret (failed "URL is required")
  | Some u =>
      if negb (isValidUrl u)
      then ret (failed "Please enter a valid URL (e.g., https://example.com)")
      else
        try_catch
          (do '(code, isUnique) <- uniqueCodeLoop 5 "" ;
           if negb isUnique
           then ret (failed "Failed to generate a unique short code. Please try again.")
           else
             do t <- now ;
             do z <- get_zone ;
             do newLink <- prisma_link_create u code (Some (setDate_plus z 7 t)) ;
             run revalidatePath "/" ;
             ret (succeeded newLink))
          (fun _ =>
             run console_error "Failed to create short link:" ;
             ret (failed "An unexpected error occurred"))
  end.

End Actions.

Definition getRecentLinks : M (list Link) :=
  try_catch prisma_link_findMany
    (fun _ => run console_error "Failed to fetch recent links:" ; ret []).

(** ** Listing route (app/api/links/route.ts) *)

Module LinksRoute.

Inductive Response : Type :=
| LinksJson (links : list Link)
| ErrorJson (status : Z) (msg : string).

Definition GET : M Response :=
  try_catch
    (do found <- getRecentLinks ; ret (LinksJson found))
    (fun _ => ret (ErrorJson 500 "Failed to fetch top links")).

End LinksRoute.

(** ** Redirect route (app/[code]/route.ts) *)

Inductive Response : Type :=
| Plain (status : Z) (body : string)
| Redirect (location : string)
| NoResponse.

(** The two closures handed to [after], with the variables they capture. *)
Inductive Task : Type :=
| CountHit (code : string)
| FillAndCount (code : string) (l : Link) (ttl : Z).

Definition truthy (s : option string) : bool :=
  match s with
  | Some "" | None => false
  | Some _ => true
  end.

(** [link.expiresAt && link.expiresAt < new Date()], and below the TTL
    expression, both on time values that a [Date] can hold; the statements
    that depend on the TTL say so with [datable]. *)
Definition pastExpiry (l : Link) (t : Z) : bool :=
  match expiresAt l with
  | Some e => e <? t
  | None => false
  end.

(** [Math.max(1, Math.floor((expiresAt - now) / 1000))] or [604800] *)
Definition cacheTtl (l : Link) (t : Z) : Z :=
  match expiresAt l with
  | Some e => Z.max 1 ((e - t) / 1000)
  | None => 604800
  end.

Definition cacheKey (code : string) : string := "link:" +:+ code.

Definition runTask (t : Task) : M unit :=
  match t with
  | CountHit code =>
      try_catch
        (prisma_link_update (ByShortCode code))
        (fun _ => console_error "Background analytics failed (cache hit):")
  | FillAndCount code l ttl =>
      try_catch
        (run redis_set (cacheKey code) (url l) ttl ;
         prisma_link_update (ById (id l)))
        (fun _ => console_error "Background caching/analytics failed (cache miss):")
  end.

Fixpoint runTasks (ts : list Task) : M unit :=
  match ts with
  | [] => ret tt
  | t :: rest => run runTask t ; runTasks rest
  end.

Definition GET (code : string) : M (Response * list Task) :=
  if String.eqb code "" then ret (Plain 404 "Not Found", [])
  else
    do r <-
      try_catch
        (do cachedUrl <- redis_get (cacheKey code) ;
         if truthy cachedUrl
         then ret (inr (default "" cachedUrl, [CountHit code]))
         else
           do found <- prisma_link_findUnique code ;
           match found with
           | None => ret (inl (Plain 404 "Short link not found"))
           | Some l =>
               do t <- now ;
               if pastExpiry l t
               then ret (inl (Plain 410 "This short link has expired."))
               else
                 do t' <- now ;
                 ret (inr (url l, [FillAndCount code l (cacheTtl l t')]))
           end)
        (fun _ =>
           run console_error ("Failed to process redirect for code: " +:+ code) ;
           ret (inl (Plain 500 "Internal Server Error"))) ;
    match r with
    | inl response => ret (response, [])
    | inr (urlToRedirect, tasks) =>
        if String.eqb urlToRedirect "" then ret (NoResponse, tasks)
        else ret (Redirect urlToRedirect, tasks)
    end.

(** A request from arrival to the end of its deferred work: the response
    is fixed by [GET]; the [after] callbacks run once it has been sent. *)
Definition serve (code : string) : M Response :=
  do '(response, tasks) <- GET code ;
  run runTasks tasks ;
  ret response.

(** ** Redirect route without cache (src/unnamed/part_003) *)

Module DirectRoute.

(** The handler that asks the store on every visit and awaits the click
    update before it redirects. *)
Definition GET (code : string) : M Response :=
  if String.eqb code "" then ret (Plain 404 "Not Found")
  else
    do r <-
      try_catch
        (do found <- prisma_link_findUnique code ;
         match found with
         | None => ret (inl (Plain 404 "Short link not found"))
         | Some l =>
             do t <- now ;
             if pastExpiry l t
             then ret (inl (Plain 410 "This short link has expired."))
             else
               run prisma_link_update (ById (id l)) ;
               ret (inr (url l))
         end)
        (fun _ =>
           run console_error ("Failed to process redirect for code: " +:+ code) ;
           ret (inl (Plain 500 "Internal Server Error"))) ;
    match r with
    | inl response => ret response
    | inr urlToRedirect =>
        if String.eqb urlToRedirect "" then ret NoResponse
        else ret (Redirect urlToRedirect)
    end.

End DirectRoute.

(** ** Seed script (prisma/seed.ts) *)

Module Seed.

(** How the script ends: the line it prints, or the error it logs before
    [process.exit(1)]. *)
Inductive Exit : Type :=
| Seeded (log : string)
| Exit1 (e : Exn).

(** [yesterday.setDate(yesterday.getDate() - 1)], in a zone without clock
    changes. *)
Definition oneDay : Z := 24 * 60 * 60 * 1000.

(** The row is written with [clicks: 0], which is also the column
    default. *)
Definition main : M Exit :=
  try_catch
    (do t <- now ;
     do _ <- prisma_link_create "https://example.com/expired-test" "exp123"
               (Some (t - oneDay)) ;
     ret (Seeded "Successfully created an expired link with code: exp123"))
    (fun e => ret (Exit1 e)).

End Seed.

(** ** Dashboard component (src/unnamed/part_001, [RecentLinks]) *)

Module RecentLinks.

(** What [useSWR] hands to the component; [data] is the parsed body of
    the last answer of [/api/links], if any. *)
Record Swr : Type := mkSwr {
  data : option LinksRoute.Response;
  error : bool;
  isLoading : bool
}.

(** One entry of the grid: its React key, the link target, the long url
    shown under it, the counter, and the two dates. *)
Record Card : Type := mkCard {
  key : N;
  href : string;
  title : string;
  count : Z;
  created : Z;
  expires : option Z
}.

Inductive View : Type :=
| LoadingNotice
| EmptyNotice
| Grid (cards : list Card).

(** [data?.links || []] *)
Definition linksOf (d : option LinksRoute.Response) : list Link :=
  match d with
  | Some (LinksRoute.LinksJson found) => found
  | _ => []
  end.

Definition card (l : Link) : Card :=
  mkCard (id l) ("/" +:+ shortCode l) (url l) (clicks l) (createdAt l) (expiresAt l).

Definition render (s : Swr) : View :=
  let shown := linksOf (data s) in
  if isLoading s then LoadingNotice
  else if error s || (length shown =? 0)%nat then EmptyNotice
  else Grid (map card shown).

(** The state once a fetch has settled: the fetcher resolves with the
    parsed body whatever the status, and rejects only when the request or
    the parsing fails, in which case the earlier [data] is kept. *)
Definition afterFetch (earlier answer : option LinksRoute.Response) : Swr :=
  match answer with
  | Some body => mkSwr (Some body) false false
  | None => mkSwr earlier true false
  end.

End RecentLinks.

(** ** Form component (src/lib/redis.ts, second part: [CreateLinkForm]) *)

Module CreateLinkForm.

(** The three [useState] cells. *)
Record State : Type := mkState {
  url : string;
  isLoading : bool;
  shortUrl : option string
}.

Inductive Notice : Type :=
| ToastError (msg : string)
| ToastSuccess (msg : string)
| ConsoleError (msg : string).

Section Form.

(** The imported server action, reached over the network, and
    [window.location.origin]. *)
Variable action : option string -> M ActionResult.
Variable origin : string.

(** [handleSubmit]: the form data carries the text of the input; the
    result is the state after the [finally] block and what was shown. *)
Definition handleSubmit (st : State) : M (State * list Notice) :=
  try_catch
    (do result <- action (Some (url st)) ;
     if truthy (error result)
     then ret (mkState (url st) false None,
               [ToastError (default "" (error result))])
     else
       match success result, link result with
       | Some true, Some l =>
           ret (mkState "" false (Some (origin +:+ "/" +:+ shortCode l)),
                [ToastSuccess "URL shortened successfully!"])
       | _, _ => ret (mkState (url st) false None, [])
       end)
    (fun _ =>
       ret (mkState (url st) false None,
            [ConsoleError "Submission failed:";
             ToastError "Failed to connect to the server. Please try again later."])).

End Form.

End CreateLinkForm.

(** * Vocabulary of the statements *)

(** ** Undisturbed runs *)

Definition quiet (a : Ambient) : Prop := interference a = [] ∧ fault a = false.

(** The world once a call issued in [w] has gone through undisturbed. *)
Definition passed (ev : Event) (w : World) : World :=
  mkWorld (links w) (nextId w) (cache w)
          (clock w + Z.of_N (latency (hd calm (ambient w))))
          (random w) (tl (ambient w)) (trace w ++ [ev]) (zone w).

(** The codes the generator hands out on its next [n] calls. *)
Fixpoint upcoming (n : nat) (rs : list nat) : list string :=
  match n with
  | O => []
  | S n' => fst (drawChars 6 rs) :: upcoming n' (snd (drawChars 6 rs))
  end.

(** The world after one undisturbed pass through the loop body. *)
Definition attempt (w : World) : World :=
  let c := fst (drawChars 6 (random w)) in
  passed (EFindUnique c) (emit (EGenerate c) (setRandom (snd (drawChars 6 (random w))) w)).

Fixpoint attempts (n : nat) (w : World) : World :=
  match n with
  | O => w
  | S n' => attempts n' (attempt w)
  end.

Definition probes (codes : list string) : list Event :=
  flat_map (λ c, [EGenerate c; EFindUnique c]) codes.

Definition taken (w : World) (c : string) : Prop := is_Some (findByCode c (links w)).

(** ** Answers and log lines *)

Definition unexpected (w : World) : Res ActionResult * World :=
  (Ok (failed "An unexpected error occurred"),
   emit (EConsoleError "Failed to create short link:") w).

Definition redirectLog (code : string) : Event :=
  EConsoleError ("Failed to process redirect for code: " +:+ code).

Definition internalError (code : string) (w : World) : Res (Response * list Task) * World :=
  (Ok (Plain 500 "Internal Server Error", []), emit (redirectLog code) w).

Definition missLog : Event :=
  EConsoleError "Background caching/analytics failed (cache miss):".

(** ** Short codes *)

Definition alphanumeric (c : ascii) : bool :=
  let n := nat_of_ascii c in
  ((65 <=? n)%nat && (n <=? 90)%nat) ||
  ((97 <=? n)%nat && (n <=? 122)%nat) ||
  ((48 <=? n)%nat && (n <=? 57)%nat).

Fixpoint allChars (p : ascii → bool) (s : string) : bool :=
  match s with
  | EmptyString => true
  | String c rest => p c && allChars p rest
  end.

(** ** The table over time *)

(** [l'] is the row [l] at a later time: the same record with at least as
    many clicks. *)
Definition row_le (l l' : Link) : Prop :=
  id l' = id l ∧ url l' = url l ∧ shortCode l' = shortCode l ∧
  createdAt l' = createdAt l ∧ expiresAt l' = expiresAt l ∧
  clicks l ≤ clicks l'.

(** [t'] is the table [t] at a later time: every row is still there, in
    place, with at least as many clicks, followed by the rows created
    since, whose counters are not negative. *)
Definition grows (t t' : list Link) : Prop :=
  ∃ old new, t' = (old ++ new)%list ∧ Forall2 row_le t old ∧
             Forall (λ l, 0 ≤ clicks l) new.

(** A computation is [steady] when, from any world and whatever the
    surroundings do, it leaves the table grown in the sense above. *)
Definition steady {A} (m : M A) : Prop :=
  ∀ w, grows (links w) (links (m w).2).

(** What reaches the server over time: creations, visits, listings, and
    time going by. *)
Inductive Request : Type :=
| Create (formUrl : option string)
| Visit (code : string)
| ListRecent
| Wait (d : N).

Definition handle (v : string → bool) (w : World) (r : Request) : World :=
  match r with
  | Create formUrl => (createShortLink v formUrl w).2
  | Visit code => (serve code w).2
  | ListRecent => (LinksRoute.GET w).2
  | Wait d => elapse d w
  end.

Definition hitLog : Event :=
  EConsoleError "Background analytics failed (cache hit):".

(** ** Keys, reads and order *)

(** The table's two unique columns hold no value twice, and every [id]
    in use was handed out before [nextId]. *)
Definition sound (w : World) : Prop :=
  NoDup (map shortCode (links w)) ∧ NoDup (map id (links w)) ∧
  Forall (λ r, (id r < nextId w)%N) (links w).

(** A computation [keeps] a property of worlds when it leads from worlds
    that have it to worlds that have it, whatever the surroundings do. *)
Definition keeps (P : World → Prop) {A} (m : M A) : Prop :=
  ∀ w, P w → P (m w).2.

(** No live cache entry under [key]. *)
Definition cold (key : string) (w : World) : Prop :=
  match cache w !! key with
  | Some (_, deadline) => deadline ≤ clock w
  | None => True
  end.

(** The calls that only read, and the log. *)
Definition readOnly (ev : Event) : bool :=
  match ev with
  | ECacheGet _ | EFindUnique _ | EFindMany | EConsoleError _ => true
  | _ => false
  end.

Definition newerFirst (a b : Link) : Prop := createdAt b ≤ createdAt a.

(** The time the next two awaited calls take. *)
Definition lookupDelay (w : World) : Z :=
  Z.of_N (latency (hd calm (ambient w))) +
  Z.of_N (latency (hd calm (tl (ambient w)))).

(** [n] visits to one code, one after the other, each with its deferred
    work. *)
Definition visits (n : nat) (code : string) (w : World) : World :=
  Nat.iter n (λ w0, (serve code w0).2) w.

(** ** What JavaScript can represent *)

(** The instants a [Date] can hold: 8.64e15 ms either side of the epoch.
    A [DateTime] column can hold later instants; read into a [Date] they
    have no time value. *)
Definition jsDateMax : Z := 8640000000000000.

Definition jsDate (t : Z) : bool := (- jsDateMax <=? t) && (t <=? jsDateMax).

(** A row whose [expiresAt], if any, is such an instant.  [pastExpiry]
    and [cacheTtl] are the handler's date arithmetic on these rows. *)
Definition datable (l : Link) : Prop :=
  match expiresAt l with
  | Some e => jsDate e = true
  | None => True
  end.

(** The characters a JSON text can start with: white space, a quote, a
    bracket, a brace, a minus sign, a digit, and the first letters of
    [true], [false] and [null]. *)
Definition jsonStart (c : ascii) : bool :=
  let n := nat_of_ascii c in
  ((n =? 32) || (n =? 9) || (n =? 10) || (n =? 13) ||
   (n =? 34) || (n =? 91) || (n =? 123) || (n =? 45) ||
   ((48 <=? n) && (n <=? 57)) ||
   (n =? 116) || (n =? 102) || (n =? 110))%nat.

(** A stored text that cannot be read as JSON.  The Upstash client hands
    such a text back as it was written, and [redis_get] is its [get] on
    these texts; a text that reads as JSON comes back as the value it
    denotes. *)
Definition plainText (s : string) : bool :=
  match s with
  | EmptyString => true
  | String c _ => negb (jsonStart c)
  end.

(** ** Validation *)

(** Modelled from the spec: lib/utils.ts, which defines [isValidUrl], is
    not among the sources.  The spec's validation step accepts a url that
    "parses as absolute URL", has "scheme ∈ {http, https}" and a "length
    within bound".  [parse] stands for the URL parser the validator relies
    on and gives the scheme of a url that parses as an absolute one;
    [bound] is the length bound, for which the spec suggests 2048. *)
Definition validUrl (parse : string → option string) (bound : nat) (u : string) : bool :=
  match parse u with
  | Some scheme =>
      (String.eqb scheme "http" || String.eqb scheme "https") &&
      (String.length u <=? bound)%nat
  | None => false
  end.

(** ** Sample data for the examples *)

(** A stand-in for the URL parser used in the examples only: the scheme
    is what precedes the first colon. *)
Fixpoint schemeOf (u : string) : option string :=
  match u with
  | EmptyString => None
  | String ":" _ => Some ""
  | String c rest => String c <$> schemeOf rest
  end.

(** A stand-in for [isValidUrl] used in the examples only: the two schemes
    the validator lets through. *)
Definition httpScheme (u : string) : bool :=
  String.prefix "http://" u || String.prefix "https://" u.

(** A server that runs on UTC. *)
Definition utc : Zone := mkZone (λ _, 0) (λ _, 0).

Definition emptyWorld : World := mkWorld [] 0 ∅ 1000 [] [] [] utc.

Definition sampleLink : Link :=
  mkLink 0 "https://example.com/a" "AbC123" 500 (Some 604800500) 0.

(** A table that already holds ["AbC123"], and a generator about to
    return ["AbC123"] and then ["XyZ789"]. *)
Definition retryWorld : World :=
  mkWorld [mkLink 0 "https://example.com/first" "AbC123" 500 (Some 604800500) 0]
          1 ∅ 1000
          [0; 27; 2; 53; 54; 55; 23; 50; 25; 59; 60; 61]%nat
          [mkAmbient 3 [] false; mkAmbient 2 [] false; mkAmbient 4 [] false] [] utc.

(** A zone an hour ahead of UTC until its clocks go back, three days
    after the epoch, and on UTC from then on; a local time that occurs
    twice is read with the earlier offset. *)
Definition clocksGoBack : Zone :=
  mkZone (λ t, if t <? 3 * msPerDay then 3600000 else 0)
         (λ local, if local <? 3 * msPerDay + 3600000 then 3600000 else 0).

(** An empty table on a server in that zone, three days before the change,
    where no call takes time. *)
Definition clockChangeWorld : World := mkWorld [] 0 ∅ 1000 [] [] [] clocksGoBack.

(** A table that holds ["AAAAAA"], and a generator stuck on that code. *)
Definition jammedWorld : World :=
  mkWorld [mkLink 0 "https://example.com/first" "AAAAAA" 500 (Some 604800500) 0]
          1 ∅ 1000 [] [] [] utc.

(** An empty table, a generator about to return ["AbC123"], and another
    request whose insert of ["AbC123"] commits between this request's
    lookup and its own insert. *)
Definition raceWorld : World :=
  mkWorld [] 0 ∅ 1000 [0; 27; 2; 53; 54; 55; 23; 50; 25; 59; 60; 61]%nat
          [calm; mkAmbient 0 [OtherCreate "https://other.example/" "AbC123" None] false]
          [] utc.

(** A table that holds ["AbC123"], a generator about to return ["AbC123"],
    ["XyZ789"] and then ["AAAAAA"], and another request whose insert of
    ["XyZ789"] commits between this request's second lookup and its
    insert. *)
Definition lateRaceWorld : World :=
  mkWorld [mkLink 0 "https://example.com/first" "AbC123" 500 (Some 604800500) 0]
          1 ∅ 1000
          [0; 27; 2; 53; 54; 55; 23; 50; 25; 59; 60; 61]%nat
          [calm; calm; mkAmbient 0 [OtherCreate "https://other.example/" "XyZ789" None] false]
          [] utc.

(** A valid link, an empty cache, and a cache that throws on lookup. *)
Definition cacheDownWorld : World :=
  mkWorld [sampleLink] 1 ∅ 1000 [] [mkAmbient 0 [] true] [] utc.

(** A link with 200 ms left, in a world where nothing else happens. *)
Definition lastSecondWorld : World :=
  mkWorld [mkLink 0 "https://example.com/soon" "soon01" 0 (Some 1200) 0]
          1 ∅ 1000 [] [] [] utc.

(** The sample link, an empty cache, and a cache that answers the lookup
    and then throws on the write. *)
Definition setFailsWorld : World :=
  mkWorld [sampleLink] 1 ∅ 1000 [] [calm; calm; mkAmbient 0 [] true] [] utc.

(** A link with five seconds left, and a cache lookup and a store lookup
    that take no time followed by a cache write that takes three
    seconds. *)
Definition slowCacheWorld : World :=
  mkWorld [mkLink 0 "https://example.com/slow" "slow01" 0 (Some 6000) 0]
          1 ∅ 1000 [] [calm; calm; mkAmbient 3000 [] false] [] utc.

(** The world half a second after the first visit to the link of
    [lastSecondWorld]: the link has expired, its cache entry has not. *)
Definition staleWorld : World := elapse 500 (snd (serve "soon01" lastSecondWorld)).

(** The sample link, an empty cache, and nothing else going on. *)
Definition sampleWorld : World := mkWorld [sampleLink] 1 ∅ 1000 [] [] [] utc.

(** The sample link with a live cache entry. *)
Definition warmWorld : World :=
  mkWorld [sampleLink] 1 {[ "link:AbC123" := ("https://example.com/a", 5000) ]}
          1000 [] [] [] utc.

(** A table holding a row whose url is the empty string. *)
Definition blankWorld : World :=
  mkWorld [mkLink 0 "" "blank1" 0 None 0] 1 ∅ 1000 [] [] [] utc.

(** * Properties *)

(** ** Stepping through an [await] *)

Lemma hd_quiet (w : World) : Forall quiet (ambient w) → quiet (hd calm (ambient w)).
Proof.
  destruct (ambient w) as [|a rest]; simpl.
  - intros _. split; reflexivity.
  - intros H. inversion H; assumption.
Qed.

Lemma passed_quiet ev w : Forall quiet (ambient w) → Forall quiet (ambient (passed ev w)).
Proof.
  simpl. destruct (ambient w) as [|a rest]; simpl; [constructor|].
  intros H. inversion H; assumption.
Qed.

Lemma await_quiet ev exn w :
  quiet (hd calm (ambient w)) → await ev exn w = (Ok tt, passed ev w).
Proof.
  intros [Hi Hf]. unfold await, settle, passed. simpl.
  rewrite Hf, Hi. reflexivity.
Qed.

Lemma await_fault ev exn w :
  fault (hd calm (ambient w)) = true →
  await ev exn w = (Throw exn, settle (hd calm (ambient w)) (emit ev w)).
Proof. intros Hf. unfold await. simpl. rewrite Hf. reflexivity. Qed.

Lemma settle_trace a w : trace (settle a w) = trace w.
Proof.
  unfold settle. simpl.
  generalize dependent w. induction (interference a) as [|c cs IH]; intros w; simpl.
  - reflexivity.
  - rewrite IH. destruct c as [u s e|s]; simpl.
    + unfold insertRow. destruct (findByCode s (links w)); reflexivity.
    + destruct (incrementRow (ByShortCode s) (links w)); reflexivity.
Qed.

(** ** Running the monad *)

Lemma bind_ok {A B} (m : M A) (k : A → M B) w a w' :
  m w = (Ok a, w') → bind m k w = k a w'.
Proof. intros H. unfold bind. rewrite H. reflexivity. Qed.

Lemma bind_throw {A B} (m : M A) (k : A → M B) w e w' :
  m w = (Throw e, w') → bind m k w = (Throw e, w').
Proof. intros H. unfold bind. rewrite H. reflexivity. Qed.

Lemma try_ok {A} (m : M A) (h : Exn → M A) w a w' :
  m w = (Ok a, w') → try_catch m h w = (Ok a, w').
Proof. intros H. unfold try_catch. rewrite H. reflexivity. Qed.

Lemma try_throw {A} (m : M A) (h : Exn → M A) w e w' :
  m w = (Throw e, w') → try_catch m h w = h e w'.
Proof. intros H. unfold try_catch. rewrite H. reflexivity. Qed.

Arguments uniqueCodeLoop : simpl never.
Arguments await : simpl never.
Arguments prisma_link_create : simpl never.
Arguments prisma_link_findUnique : simpl never.
Arguments prisma_link_update : simpl never.
Arguments redis_get : simpl never.
Arguments redis_set : simpl never.
Arguments generateShortCode : simpl never.

(** ** Creation: validation and result shapes *)

(** The action on a non-empty url that [isValidUrl] accepts, by the
    outcome of its loop and of its insert. *)
Lemma createShortLink_valid (v : string → bool) (u : string) (w : World) :
  u ≠ "" → v u = true →
  createShortLink v (Some u) w =
    match uniqueCodeLoop 5 "" w with
    | (Ok (code, true), w1) =>
        match prisma_link_create u code (Some (setDate_plus (zone w1) 7 (clock w1))) w1 with
        | (Ok l, w2) => (Ok (succeeded l), emit (ERevalidate "/") w2)
        | (Throw _, w2) => unexpected w2
        end
    | (Ok (code, false), w1) =>
        (Ok (failed "Failed to generate a unique short code. Please try again."), w1)
    | (Throw _, w1) => unexpected w1
    end.
Proof.
  intros Hne Hv. unfold createShortLink.
  destruct u as [|a u]; [congruence|]. rewrite Hv.
  unfold try_catch, bind, now, get_zone, unexpected. simpl.
  destruct (uniqueCodeLoop 5 "" w) as [[[code [|]]|e] w1]; try reflexivity.
  simpl. destruct (prisma_link_create _ _ _ w1) as [[l|e] w2]; reflexivity.
Qed.

Lemma prisma_link_create_unfold (u c : string) (e : option Z) (w : World) :
  prisma_link_create u c e w =
    match await (ECreate u c e) StoreError w with
    | (Ok _, w1) =>
        match insertRow u c e w1 with
        | Some (l, w2) => (Ok l, w2)
        | None => (Throw UniqueViolation, w1)
        end
    | (Throw x, w1) => (Throw x, w1)
    end.
Proof.
  unfold prisma_link_create, bind.
  destruct (await _ _ w) as [[[]|x] w1]; reflexivity.
Qed.

Lemma insertRow_inv (u c : string) (e : option Z) (w : World) l w' :
  insertRow u c e w = Some (l, w') →
  findByCode c (links w) = None ∧
  l = mkLink (nextId w) u c (clock w) e 0 ∧
  links w' = (links w ++ [l])%list ∧ trace w' = trace w ∧ clock w' = clock w ∧
  cache w' = cache w ∧ ambient w' = ambient w ∧ random w' = random w.
Proof.
  unfold insertRow. destruct (findByCode c (links w)); [discriminate|].
  intros H. injection H as <- <-. simpl. repeat split; reflexivity.
Qed.

Lemma createShortLink_outcome (v : string → bool) (formUrl : option string) (w : World) :
  ∃ r w', createShortLink v formUrl w = (Ok r, w') ∧
          ((∃ msg, r = failed msg) ∨ (∃ l, r = succeeded l ∧ l ∈ links w')).
Proof.
  destruct formUrl as [u|]; [|eexists _, _; split; [reflexivity | left; eauto]].
  destruct (decide (u = "")) as [->|Hne];
    [eexists _, _; split; [reflexivity | left; eauto]|].
  destruct (v u) eqn:Hv.
  - rewrite createShortLink_valid by assumption.
    destruct (uniqueCodeLoop 5 "" w) as [[[code [|]]|e] w1];
      try (eexists _, _; split; [reflexivity | left; eauto]).
    rewrite prisma_link_create_unfold.
    destruct (await _ _ w1) as [[[]|x] w2];
      [|eexists _, _; split; [reflexivity | left; eauto]].
    destruct (insertRow _ _ _ w2) as [[l w3]|] eqn:Hins;
      [|eexists _, _; split; [reflexivity | left; eauto]].
    eexists _, _; split; [reflexivity | right].
    exists l. split; [reflexivity|].
    apply insertRow_inv in Hins as (_ & _ & Hl & _). simpl. rewrite Hl. set_solver.
  - unfold createShortLink. destruct u; [congruence|]. rewrite Hv.
    eexists _, _; split; [reflexivity | left; eauto].
Qed.

(** Whatever [isValidUrl] is, a request whose [url] is missing, empty or
    refused by it is answered at once with [{ error: message }], and the
    world is left exactly as it was. *)
Lemma createShortLink_refusal (v : string → bool) (formUrl : option string) (w : World) :
  (formUrl = None ∨ formUrl = Some "" ∨ (∃ u, formUrl = Some u ∧ v u = false)) →
  ∃ msg, createShortLink v formUrl w = (Ok (mkResult None (Some msg) None), w).
Proof.
  intros [-> | [-> | (u & -> & Hv)]]; unfold createShortLink.
  - eauto.
  - eauto.
  - destruct u as [|a u]; [eauto|]. rewrite Hv. simpl. eauto.
Qed.

Lemma validUrl_refuses (parse : string → option string) (bound : nat) (u : string) :
  parse u = None ∨
  (∃ scheme, parse u = Some scheme ∧ scheme ≠ "http" ∧ scheme ≠ "https") ∨
  (bound < String.length u)%nat →
  validUrl parse bound u = false.
Proof.
  unfold validUrl. intros [-> | [(scheme & -> & Hhttp & Hhttps) | Hlong]].
  - reflexivity.
  - apply String.eqb_neq in Hhttp, Hhttps. rewrite Hhttp, Hhttps. reflexivity.
  - destruct (parse u); [|reflexivity].
    apply Nat.leb_gt in Hlong. rewrite Hlong. apply andb_false_r.
Qed.

(** C7 as the code has it, with [isValidUrl] as the spec describes it: a
    request whose [url] is missing or empty, does not parse as an absolute
    url, has a scheme other than [http] and [https], or is longer than the
    bound is answered at once with the object [{ error: message }] -- a
    returned value with no [success] field and no [link] -- and the world
    is left exactly as it was, so no store, cache or generator call is
    issued.  The action never throws, and every result it returns is
    either such an [{ error }] object or [{ success: true, link }] for a
    row that is in the table. *)
Theorem createShortLink_validation (parse : string → option string) (bound : nat)
    (formUrl : option string) (w : World) :
  let isValidUrl := validUrl parse bound in
  ((formUrl = None ∨ formUrl = Some "" ∨
    (∃ u, formUrl = Some u ∧
          (parse u = None ∨
           (∃ scheme, parse u = Some scheme ∧ scheme ≠ "http" ∧ scheme ≠ "https") ∨
           (bound < String.length u)%nat))) →
     ∃ msg, createShortLink isValidUrl formUrl w
            = (Ok (mkResult None (Some msg) None), w)) ∧
  (∃ r w', createShortLink isValidUrl formUrl w = (Ok r, w') ∧
     ((∃ msg, r = mkResult None (Some msg) None) ∨
      (∃ l, r = mkResult (Some true) None (Some l) ∧ l ∈ links w'))).
Proof.
  cbv zeta. split; [|apply createShortLink_outcome].
  intros Hbad. apply createShortLink_refusal.
  destruct Hbad as [H | [H | (u & Hu & Hwhy)]]; [left; exact H | right; left; exact H|].
  right. right. exists u. split; [exact Hu|]. apply validUrl_refuses, Hwhy.
Qed.

Lemma createShortLink_validation_witness :
  ∃ msg, createShortLink (validUrl schemeOf 2048) (Some "ftp://example.com/file") emptyWorld
         = (Ok (mkResult None (Some msg) None), emptyWorld).
Proof.
  apply (proj1 (createShortLink_validation schemeOf 2048 (Some "ftp://example.com/file")
                  emptyWorld)).
  right. right. exists "ftp://example.com/file". split; [reflexivity|].
  right. left. exists "ftp". split; [reflexivity|]. split; discriminate.
Defined.

(** The empty url is answered with [{ error }], whose [success] field is
    absent rather than [false]. *)
Lemma createShortLink_no_success_false :
  ¬ ∃ msg w', createShortLink httpScheme (Some "") emptyWorld
              = (Ok (mkResult (Some false) (Some msg) None), w').
Proof. intros (msg & w' & H). vm_compute in H. discriminate H. Qed.

(** ** Listing *)

Lemma getRecentLinks_total (w : World) :
  ∃ found w', getRecentLinks w = (Ok found, w') ∧
              (fault (hd calm (ambient w)) = true → found = []).
Proof.
  unfold getRecentLinks, try_catch, prisma_link_findMany, bind at 1.
  unfold await. destruct (fault (hd calm (ambient w))) eqn:Hf; simpl.
  - eexists _, _; split; [reflexivity | auto].
  - eexists _, _; split; [reflexivity | discriminate].
Qed.

(** C9: [getRecentLinks] never throws: when the store call fails it logs
    and returns the empty list.  Hence the listing route always answers
    with the [{ links }] body and never with its 500 body, and the answer
    to a failed read is the answer given for a table without rows. *)
Theorem getRecentLinks_swallows_store_failure (w : World) :
  (∃ found w', getRecentLinks w = (Ok found, w') ∧
               LinksRoute.GET w = (Ok (LinksRoute.LinksJson found), w') ∧
               (fault (hd calm (ambient w)) = true → found = [])) ∧
  (∀ w0, fault (hd calm (ambient w)) = true →
         links w0 = [] → quiet (hd calm (ambient w0)) →
         fst (LinksRoute.GET w) = fst (LinksRoute.GET w0)).
Proof.
  split.
  - destruct (getRecentLinks_total w) as (found & w' & Hg & Hf).
    exists found, w'. split; [exact Hg|]. split; [|exact Hf].
    unfold LinksRoute.GET, try_catch, bind. rewrite Hg. reflexivity.
  - intros w0 Hf Hempty Hq.
    unfold LinksRoute.GET, try_catch, bind, getRecentLinks, try_catch,
      prisma_link_findMany, bind.
    rewrite (await_fault _ _ _ Hf), (await_quiet _ _ _ Hq). simpl.
    rewrite Hempty. reflexivity.
Qed.

Lemma getRecentLinks_swallows_store_failure_witness :
  fst (LinksRoute.GET (mkWorld [mkLink 0 "https://example.com" "AbC123" 5 None 3]
                               1 ∅ 1000 [] [mkAmbient 0 [] true] [] utc))
  = fst (LinksRoute.GET emptyWorld).
Proof.
  apply (proj2 (getRecentLinks_swallows_store_failure _)).
  - reflexivity.
  - reflexivity.
  - split; reflexivity.
Defined.

(** ** Creation: the retry loop *)

Arguments drawChars : simpl never.

Lemma upcoming_S n rs :
  upcoming (S n) rs = fst (drawChars 6 rs) :: upcoming n (snd (drawChars 6 rs)).
Proof. reflexivity. Qed.

Lemma generateShortCode_unfold (w : World) :
  generateShortCode w =
    (Ok (fst (drawChars 6 (random w))),
     emit (EGenerate (fst (drawChars 6 (random w))))
          (setRandom (snd (drawChars 6 (random w))) w)).
Proof. unfold generateShortCode. destruct (drawChars 6 (random w)). reflexivity. Qed.

Lemma prisma_link_findUnique_quiet (c : string) (w : World) :
  quiet (hd calm (ambient w)) →
  prisma_link_findUnique c w = (Ok (findByCode c (links w)), passed (EFindUnique c) w).
Proof.
  intros Hq. unfold prisma_link_findUnique.
  erewrite bind_ok by (apply await_quiet; exact Hq). reflexivity.
Qed.

Lemma uniqueCodeLoop_step (n : nat) (s : string) (w : World) :
  quiet (hd calm (ambient w)) →
  uniqueCodeLoop (S n) s w =
    match findByCode (fst (drawChars 6 (random w))) (links w) with
    | None => (Ok (fst (drawChars 6 (random w)), true), attempt w)
    | Some _ => uniqueCodeLoop n (fst (drawChars 6 (random w))) (attempt w)
    end.
Proof.
  intros Hq. unfold uniqueCodeLoop at 1. fold uniqueCodeLoop.
  erewrite bind_ok by apply generateShortCode_unfold.
  erewrite bind_ok by (apply prisma_link_findUnique_quiet; exact Hq).
  change (links (emit _ (setRandom _ w))) with (links w).
  destruct (findByCode _ (links w)); reflexivity.
Qed.

Lemma attempt_links w : links (attempt w) = links w.
Proof. reflexivity. Qed.

Lemma attempt_quiet w : Forall quiet (ambient w) → Forall quiet (ambient (attempt w)).
Proof. intros H. unfold attempt. apply passed_quiet. exact H. Qed.

Lemma attempts_links n w : links (attempts n w) = links w.
Proof. revert w. induction n as [|n IH]; intros w; simpl; [reflexivity|]. rewrite IH. reflexivity. Qed.

Lemma attempts_quiet n w : Forall quiet (ambient w) → Forall quiet (ambient (attempts n w)).
Proof.
  revert w. induction n as [|n IH]; intros w H; simpl; [exact H|].
  apply IH, attempt_quiet, H.
Qed.

Lemma attempts_trace n w :
  trace (attempts n w) = (trace w ++ probes (upcoming n (random w)))%list.
Proof.
  revert w. induction n as [|n IH]; intros w; simpl.
  - rewrite app_nil_r. reflexivity.
  - rewrite IH. simpl. rewrite <- !app_assoc. reflexivity.
Qed.

Lemma attempts_clock n w : clock w ≤ clock (attempts n w).
Proof.
  revert w. induction n as [|n IH]; intros w; simpl; [lia|].
  etransitivity; [|apply IH]. simpl. lia.
Qed.

Lemma upcoming_attempts n m w :
  upcoming (n + m) (random w) =
    (upcoming n (random w) ++ upcoming m (random (attempts n w)))%list.
Proof.
  revert w. induction n as [|n IH]; intros w; simpl; [reflexivity|].
  f_equal. apply (IH (attempt w)).
Qed.

(** As long as the generated codes are in the table, an undisturbed loop
    keeps going round. *)
Lemma uniqueCodeLoop_collisions (k n : nat) (s : string) (w : World) :
  Forall quiet (ambient w) →
  Forall (taken w) (upcoming k (random w)) →
  ∃ s', uniqueCodeLoop (k + n) s w = uniqueCodeLoop n s' (attempts k w).
Proof.
  revert s w. induction k as [|k IH]; intros s w Hq Hall; [exists s; reflexivity|].
  change (S k + n)%nat with (S (k + n)).
  rewrite uniqueCodeLoop_step by (apply hd_quiet, Hq).
  rewrite upcoming_S in Hall. apply Forall_cons in Hall as [[x Hx] Hrest].
  rewrite Hx. apply (IH _ (attempt w)).
  - apply attempt_quiet, Hq.
  - exact Hrest.
Qed.

Lemma upcoming_length n rs : length (upcoming n rs) = n.
Proof. revert rs. induction n as [|n IH]; intros rs; simpl; [reflexivity|]. rewrite IH. reflexivity. Qed.

Lemma prisma_link_create_quiet (u c : string) (e : option Z) (w : World) :
  quiet (hd calm (ambient w)) → findByCode c (links w) = None →
  let w1 := passed (ECreate u c e) w in
  let l := mkLink (nextId w) u c (clock w1) e 0 in
  prisma_link_create u c e w =
    (Ok l, mkWorld (links w ++ [l]) (N.succ (nextId w)) (cache w) (clock w1)
                   (random w) (ambient w1) (trace w1) (zone w)).
Proof.
  intros Hq Hfree. simpl. rewrite prisma_link_create_unfold.
  rewrite await_quiet by exact Hq. unfold insertRow. simpl links.
  rewrite Hfree. reflexivity.
Qed.

(** The loop when nothing disturbs the request and every collision is one
    that the lookup sees: with a url that passes validation, if the
    generator's first [k] codes ([k ≤ 4]) are all in the table and the next
    one is not, the action succeeds with a row that carries that next code,
    after [k + 1] generator calls; if its first five codes are all in the
    table the action returns the could-not-generate-a-unique-code error
    after five generator calls and five lookups, with no sixth call and no
    insert. *)
Lemma collision_retry_bound (v : string → bool) (u : string) (w : World) :
  u ≠ "" → v u = true → Forall quiet (ambient w) →
  (∀ (k : nat) (colliding : list string) (fresh : string),
     (k ≤ 4)%nat →
     upcoming (S k) (random w) = (colliding ++ [fresh])%list →
     Forall (taken w) colliding →
     findByCode fresh (links w) = None →
     ∃ l w', createShortLink v (Some u) w = (Ok (succeeded l), w') ∧
             shortCode l = fresh ∧ url l = u ∧
             links w' = (links w ++ [l])%list ∧
             trace w' = (trace w ++ probes (colliding ++ [fresh]) ++
                         [ECreate u fresh (expiresAt l); ERevalidate "/"])%list) ∧
  (Forall (taken w) (upcoming 5 (random w)) →
     ∃ w', createShortLink v (Some u) w =
             (Ok (failed "Failed to generate a unique short code. Please try again."), w') ∧
           links w' = links w ∧
           trace w' = (trace w ++ probes (upcoming 5 (random w)))%list).
Proof.
  intros Hne Hv Hq. rewrite createShortLink_valid by assumption. split.
  - intros k colliding fresh Hk Hup Hcol Hfresh.
    assert (Hlen : length colliding = k).
    { apply (f_equal length) in Hup. rewrite upcoming_length, length_app in Hup.
      simpl in Hup. lia. }
    replace (S k) with (k + 1)%nat in Hup by lia.
    rewrite upcoming_attempts in Hup.
    apply app_inj_2 in Hup as [Hc Hf]; [|reflexivity].
    assert (Hf' : fst (drawChars 6 (random (attempts k w))) = fresh)
      by (rewrite upcoming_S in Hf; congruence).
    clear Hf. rename Hf' into Hf.
    destruct (uniqueCodeLoop_collisions k (S (4 - k)) "" w Hq) as [s' Hloop].
    { rewrite Hc. exact Hcol. }
    replace (k + S (4 - k))%nat with 5%nat in Hloop by lia.
    rewrite Hloop, uniqueCodeLoop_step by (apply hd_quiet, attempts_quiet, Hq).
    rewrite Hf, attempts_links, Hfresh.
    rewrite prisma_link_create_quiet.
    + eexists _, _. split; [reflexivity|].
      cbn [shortCode url links trace expiresAt emit passed].
      split; [reflexivity|]. split; [reflexivity|]. split.
      * rewrite attempt_links, attempts_links. reflexivity.
      * unfold attempt. cbn [trace emit passed setRandom].
        rewrite attempts_trace, Hc, Hf. unfold probes.
        rewrite flat_map_app. cbn [flat_map]. rewrite <- !app_assoc. reflexivity.
    + apply hd_quiet, attempt_quiet, attempts_quiet, Hq.
    + rewrite attempt_links, attempts_links. exact Hfresh.
  - intros Hall.
    destruct (uniqueCodeLoop_collisions 5 0 "" w Hq Hall) as [s' Hloop].
    change (5 + 0)%nat with 5%nat in Hloop. rewrite Hloop.
    eexists. split; [reflexivity|]. split.
    + apply attempts_links.
    + apply attempts_trace.
Qed.

Lemma collision_retry_bound_witness :
  (∃ l w', createShortLink httpScheme (Some "https://example.com/a") retryWorld
             = (Ok (succeeded l), w') ∧
           shortCode l = "XyZ789" ∧ url l = "https://example.com/a" ∧
           links w' = (links retryWorld ++ [l])%list ∧
           trace w' = (trace retryWorld ++ probes (["AbC123"] ++ ["XyZ789"]) ++
                       [ECreate "https://example.com/a" "XyZ789" (expiresAt l);
                        ERevalidate "/"])%list) ∧
  (∃ w', createShortLink httpScheme (Some "https://example.com/a") jammedWorld
           = (Ok (failed "Failed to generate a unique short code. Please try again."), w') ∧
         links w' = links jammedWorld ∧
         trace w' = (trace jammedWorld ++ probes (upcoming 5 (random jammedWorld)))%list).
Proof.
  split.
  - apply (proj1 (collision_retry_bound httpScheme "https://example.com/a" retryWorld
                    ltac:(discriminate) eq_refl
                    ltac:(repeat constructor)) 1%nat ["AbC123"] "XyZ789").
    + lia.
    + reflexivity.
    + repeat constructor. eexists. reflexivity.
    + reflexivity.
  - apply (proj2 (collision_retry_bound httpScheme "https://example.com/a" jammedWorld
                    ltac:(discriminate) eq_refl
                    ltac:(repeat constructor))).
    repeat constructor; eexists; reflexivity.
Defined.

(** C4, where the code departs from it: a collision that shows at the
    insert is not retried.  In [lateRaceWorld] the generator's first code
    is in the table and its second is taken by another request between
    this request's lookup and its insert, so both collide, and its third
    is free throughout.  The action gives up at the second: its insert
    meets the unique index, no third code is generated, and it answers
    with the unexpected-error object, neither with a link nor with the
    could-not-generate error. *)
Theorem collision_at_insert_is_not_retried :
  let outcome := createShortLink httpScheme (Some "https://example.com/a") lateRaceWorld in
  upcoming 3 (random lateRaceWorld) = ["AbC123"; "XyZ789"; "AAAAAA"] ∧
  findByCode "AAAAAA" (links (snd outcome)) = None ∧
  fst outcome = Ok (failed "An unexpected error occurred") ∧
  trace (snd outcome) =
    [EGenerate "AbC123"; EFindUnique "AbC123";
     EGenerate "XyZ789"; EFindUnique "XyZ789";
     ECreate "https://example.com/a" "XyZ789" (Some 604801000);
     EConsoleError "Failed to create short link:"] ∧
  map shortCode (links (snd outcome)) = ["AbC123"; "XyZ789"] ∧
  map url (links (snd outcome)) = ["https://example.com/first"; "https://other.example/"].
Proof. vm_compute. repeat split. Qed.

(** ** Creation: the record that is returned *)

Lemma charAt_alphabet (i : nat) : (i < 62)%nat → alphanumeric (charAt alphabet i) = true.
Proof.
  intros Hi.
  do 62 (destruct i as [|i]; [reflexivity|]).
  lia.
Qed.

Lemma drawChars_shape (n : nat) (rs : list nat) :
  String.length (fst (drawChars n rs)) = n ∧
  allChars alphanumeric (fst (drawChars n rs)) = true.
Proof.
  revert rs. induction n as [|n IH]; intros rs; [split; reflexivity|].
  unfold drawChars; fold drawChars.
  destruct (IH (tl rs)) as [Hlen Hall].
  destruct (drawChars n (tl rs)) as [s rs']. cbn [fst] in *.
  split.
  - cbn [String.length]. rewrite Hlen. reflexivity.
  - cbn [allChars]. rewrite Hall, charAt_alphabet; [reflexivity|].
    apply Nat.mod_upper_bound. discriminate.
Qed.

Lemma commit_frame (c : Concurrent) (w : World) :
  trace (commit c w) = trace w ∧ clock (commit c w) = clock w ∧
  cache (commit c w) = cache w ∧ random (commit c w) = random w ∧
  ambient (commit c w) = ambient w.
Proof.
  destruct c as [u s e|s]; simpl.
  - unfold insertRow. destruct (findByCode s (links w)); repeat split; reflexivity.
  - destruct (incrementRow (ByShortCode s) (links w)); repeat split; reflexivity.
Qed.

Lemma commits_frame (cs : list Concurrent) (w : World) :
  let w' := foldl (λ acc c, commit c acc) w cs in
  trace w' = trace w ∧ clock w' = clock w ∧ cache w' = cache w ∧
  random w' = random w ∧ ambient w' = ambient w.
Proof.
  revert w. induction cs as [|c cs IH]; intros w; simpl; [repeat split; reflexivity|].
  destruct (IH (commit c w)) as (H1 & H2 & H3 & H4 & H5).
  destruct (commit_frame c w) as (G1 & G2 & G3 & G4 & G5).
  simpl in *. repeat split; congruence.
Qed.

Lemma settle_clock (a : Ambient) (w : World) :
  clock (settle a w) = clock w + Z.of_N (latency a).
Proof.
  unfold settle. cbn [clock].
  destruct (commits_frame (interference a) w) as (_ & -> & _). reflexivity.
Qed.

Lemma await_clock (ev : Event) (x : Exn) (w : World) :
  clock w ≤ clock (await ev x w).2.
Proof.
  unfold await. destruct (fault (hd calm (ambient w))); cbn [snd];
    rewrite settle_clock; unfold emit; cbn [clock]; lia.
Qed.

Lemma prisma_link_findUnique_clock (c : string) (w : World) :
  clock w ≤ clock (prisma_link_findUnique c w).2.
Proof.
  unfold prisma_link_findUnique, bind.
  pose proof (await_clock (EFindUnique c) StoreError w) as H.
  destruct (await _ _ w) as [[[]|x] w1]; exact H.
Qed.

Lemma uniqueCodeLoop_clock (n : nat) (s : string) (w : World) :
  clock w ≤ clock (uniqueCodeLoop n s w).2.
Proof.
  revert s w. induction n as [|n IH]; intros s w; [reflexivity|].
  unfold uniqueCodeLoop; fold uniqueCodeLoop.
  erewrite bind_ok by apply generateShortCode_unfold.
  set (c := fst (drawChars 6 (random w))). set (w0 := emit _ _).
  unfold bind.
  pose proof (prisma_link_findUnique_clock c w0) as H.
  destruct (prisma_link_findUnique c w0) as [[[l|]|x] w1]; cbn [snd] in *.
  - etransitivity; [exact H | apply IH].
  - exact H.
  - exact H.
Qed.

(** No call changes the server's zone. *)
Lemma commit_zone (c : Concurrent) (w : World) : zone (commit c w) = zone w.
Proof.
  destruct c as [u s e|s]; simpl.
  - unfold insertRow. destruct (findByCode s (links w)); reflexivity.
  - destruct (incrementRow (ByShortCode s) (links w)); reflexivity.
Qed.

Lemma settle_zone (a : Ambient) (w : World) : zone (settle a w) = zone w.
Proof.
  unfold settle. cbn [zone]. revert w.
  induction (interference a) as [|c cs IH]; intros w; simpl; [reflexivity|].
  rewrite IH. apply commit_zone.
Qed.

Lemma await_zone (ev : Event) (x : Exn) (w : World) : zone (await ev x w).2 = zone w.
Proof.
  unfold await. destruct (fault (hd calm (ambient w))); cbn [snd];
    rewrite settle_zone; reflexivity.
Qed.

Lemma prisma_link_findUnique_zone (c : string) (w : World) :
  zone (prisma_link_findUnique c w).2 = zone w.
Proof.
  unfold prisma_link_findUnique, bind.
  pose proof (await_zone (EFindUnique c) StoreError w) as H.
  destruct (await _ _ w) as [[[]|x] w1]; exact H.
Qed.

Lemma uniqueCodeLoop_zone (n : nat) (s : string) (w : World) :
  zone (uniqueCodeLoop n s w).2 = zone w.
Proof.
  revert s w. induction n as [|n IH]; intros s w; [reflexivity|].
  unfold uniqueCodeLoop; fold uniqueCodeLoop.
  erewrite bind_ok by apply generateShortCode_unfold.
  set (c := fst (drawChars 6 (random w))). set (w0 := emit _ _).
  unfold bind.
  pose proof (prisma_link_findUnique_zone c w0) as H.
  destruct (prisma_link_findUnique c w0) as [[[l|]|x] w1]; cbn [snd] in *.
  - rewrite IH. exact H.
  - exact H.
  - exact H.
Qed.

(** A code that leaves the loop with [isUnique] set came from the
    generator. *)
Lemma uniqueCodeLoop_generated (n : nat) (s : string) (w : World) code w1 :
  uniqueCodeLoop n s w = (Ok (code, true), w1) →
  String.length code = 6%nat ∧ allChars alphanumeric code = true.
Proof.
  revert s w. induction n as [|n IH]; intros s w; [discriminate|].
  unfold uniqueCodeLoop; fold uniqueCodeLoop.
  erewrite bind_ok by apply generateShortCode_unfold.
  unfold bind.
  destruct (prisma_link_findUnique _ _) as [[[l|]|x] w2].
  - apply IH.
  - intros H.
    assert (Hc : code = fst (drawChars 6 (random w))) by (unfold ret in H; congruence).
    rewrite Hc. apply drawChars_shape.
  - discriminate.
Qed.

(** What a [{ success: true, link }] result says about the run that
    produced it. *)
Lemma createShortLink_success_inv (v : string → bool) (formUrl : option string)
    (w w' : World) (r : ActionResult) :
  createShortLink v formUrl w = (Ok r, w') → success r = Some true →
  ∃ l code w1,
    link r = Some l ∧ formUrl = Some (url l) ∧ v (url l) = true ∧ l ∈ links w' ∧
    String.length (shortCode l) = 6%nat ∧
    allChars alphanumeric (shortCode l) = true ∧
    clicks l = 0 ∧
    uniqueCodeLoop 5 "" w = (Ok (code, true), w1) ∧
    expiresAt l = Some (setDate_plus (zone w) 7 (clock w1)) ∧
    clock w ≤ clock w1 ∧
    createdAt l = clock w1 + Z.of_N (latency (hd calm (ambient w1))).
Proof.
  intros Hrun Hsucc.
  destruct formUrl as [u|]; [|injection Hrun as <- _; discriminate].
  destruct (decide (u = "")) as [->|Hne]; [injection Hrun as <- _; discriminate|].
  destruct (v u) eqn:Hv.
  2:{ unfold createShortLink in Hrun. destruct u; [congruence|]. rewrite Hv in Hrun.
      injection Hrun as <- _. discriminate. }
  rewrite createShortLink_valid in Hrun by assumption.
  pose proof (uniqueCodeLoop_clock 5 "" w) as Hclock.
  pose proof (uniqueCodeLoop_zone 5 "" w) as Hzone.
  destruct (uniqueCodeLoop 5 "" w) as [[[code [|]]|x] w1] eqn:Hloop;
    [|injection Hrun as <- _; discriminate..].
  cbn [snd] in Hzone. rewrite Hzone in Hrun.
  destruct (uniqueCodeLoop_generated _ _ _ _ _ Hloop) as [Hlen Hall].
  rewrite prisma_link_create_unfold in Hrun.
  unfold await in Hrun.
  destruct (fault (hd calm (ambient w1))); [injection Hrun as <- _; discriminate|].
  set (w2 := settle _ _) in Hrun.
  destruct (insertRow u code _ w2) as [[l w3]|] eqn:Hins;
    [|injection Hrun as <- _; discriminate].
  apply insertRow_inv in Hins as (_ & Hl & Hlinks & _).
  assert (Hr : r = succeeded l) by congruence.
  assert (Hw : w' = emit (ERevalidate "/") w3) by congruence.
  exists l, code, w1. subst r w' l. cbn [link url shortCode clicks expiresAt createdAt snd] in *.
  repeat (split; [first [reflexivity | assumption]|]).
  split; [unfold emit; cbn [links]; rewrite Hlinks; set_solver|].
  repeat (split; [first [reflexivity | assumption]|]).
  subst w2. rewrite settle_clock. reflexivity.
Qed.

(** C8 as the code has it: the record carried by a
    [{ success: true, link }] result has a short code of six characters,
    each in [A-Za-z0-9] (as the generator is modelled), and no clicks.  Its
    [expiresAt] is the instant [t] at which the action took [new Date()],
    when its loop had ended and before the insert, moved on by seven
    calendar days in the server's zone; that is [t] plus 604800000 ms when
    the zone has the same offset at both ends.  The row's own [createdAt]
    is set by the store and is [t] plus the time the insert took. *)
Theorem created_link_record (v : string → bool) (formUrl : option string)
    (w w' : World) (r : ActionResult) :
  createShortLink v formUrl w = (Ok r, w') → success r = Some true →
  ∃ l code w1,
    link r = Some l ∧ formUrl = Some (url l) ∧ v (url l) = true ∧ l ∈ links w' ∧
    String.length (shortCode l) = 6%nat ∧
    allChars alphanumeric (shortCode l) = true ∧
    clicks l = 0 ∧
    uniqueCodeLoop 5 "" w = (Ok (code, true), w1) ∧
    expiresAt l = Some (setDate_plus (zone w) 7 (clock w1)) ∧
    (offsetAtLocal (zone w) (clock w1 + offsetAtUtc (zone w) (clock w1) + sevenDays)
       = offsetAtUtc (zone w) (clock w1) →
     expiresAt l = Some (clock w1 + sevenDays)) ∧
    clock w ≤ clock w1 ∧
    createdAt l = clock w1 + Z.of_N (latency (hd calm (ambient w1))).
Proof.
  intros Hrun Hsucc.
  destruct (createShortLink_success_inv v formUrl w w' r Hrun Hsucc)
    as (l & code & w1 & H1 & H2 & H3 & H4 & H5 & H6 & H7 & H8 & H9 & H10 & H11).
  exists l, code, w1.
  split; [exact H1|]. split; [exact H2|]. split; [exact H3|]. split; [exact H4|].
  split; [exact H5|]. split; [exact H6|]. split; [exact H7|]. split; [exact H8|].
  split; [exact H9|]. split; [|split; [exact H10 | exact H11]].
  intros Hsame. rewrite H9. unfold setDate_plus.
  change (7 * msPerDay) with sevenDays. rewrite Hsame. f_equal. lia.
Qed.

Lemma created_link_record_witness :
  ∃ l, fst (createShortLink httpScheme (Some "https://example.com/a/b/c") retryWorld)
         = Ok (succeeded l) ∧
       String.length (shortCode l) = 6%nat ∧
       allChars alphanumeric (shortCode l) = true ∧
       clicks l = 0 ∧
       expiresAt l = Some (1005 + sevenDays) ∧ createdAt l = 1005 + 4.
Proof.
  destruct (created_link_record httpScheme (Some "https://example.com/a/b/c") retryWorld
              (snd (createShortLink httpScheme (Some "https://example.com/a/b/c") retryWorld))
              (succeeded (mkLink 1 "https://example.com/a/b/c" "XyZ789" 1009
                                 (Some 604801005) 0))
              ltac:(vm_compute; reflexivity) eq_refl)
    as (l & code & w1 & Hl & _ & _ & _ & Hlen & Hall & Hclicks & Hloop & _ & Hexp & _ & Hcreated).
  exists l. injection Hl as <-.
  assert (Hw1 : clock w1 = 1005)
    by (vm_compute in Hloop; injection Hloop as _ <-; reflexivity).
  split; [vm_compute; reflexivity|]. split; [exact Hlen|]. split; [exact Hall|].
  split; [exact Hclicks|]. split.
  - rewrite <- Hw1. apply Hexp. reflexivity.
  - reflexivity.
Defined.

(** Two created records whose [expiresAt] is not their creation time plus
    seven days: one whose insert took 4 ms, so that the store's [createdAt]
    is later than the instant the action had read; and one created, with no
    delay at all, on a server whose clocks go back within the week, so that
    seven calendar days are an hour longer than seven times twenty-four
    hours. *)
Lemma expiry_is_not_creation_plus_seven_days :
  (∃ l, fst (createShortLink httpScheme (Some "https://example.com/a/b/c") retryWorld)
          = Ok (succeeded l) ∧
        expiresAt l ≠ Some (createdAt l + sevenDays)) ∧
  (∃ l, fst (createShortLink httpScheme (Some "https://example.com/a/b/c") clockChangeWorld)
          = Ok (succeeded l) ∧
        createdAt l = clock clockChangeWorld ∧
        expiresAt l ≠ Some (createdAt l + sevenDays)).
Proof.
  split.
  - exists (mkLink 1 "https://example.com/a/b/c" "XyZ789" 1009 (Some 604801005) 0).
    split; [vm_compute; reflexivity|]. vm_compute. discriminate.
  - exists (mkLink 0 "https://example.com/a/b/c" "AAAAAA" 1000 (Some 608401000) 0).
    split; [vm_compute; reflexivity|]. split; [reflexivity|]. vm_compute. discriminate.
Qed.

(** ** Redirect: the handler by cases *)

Lemma truthy_nonempty (c : option string) :
  truthy c = true → String.eqb (default "" c) "" = false.
Proof. destruct c as [[|a s]|]; simpl; congruence. Qed.

(** The handler on a non-empty code, by the outcome of the cache lookup
    and of the store lookup. *)
Lemma GET_unfold (code : string) (w : World) :
  code ≠ "" →
  GET code w =
    match redis_get (cacheKey code) w with
    | (Throw _, w1) => internalError code w1
    | (Ok cachedUrl, w1) =>
        if truthy cachedUrl
        then (Ok (Redirect (default "" cachedUrl), [CountHit code]), w1)
        else
          match prisma_link_findUnique code w1 with
          | (Throw _, w2) => internalError code w2
          | (Ok None, w2) => (Ok (Plain 404 "Short link not found", []), w2)
          | (Ok (Some l), w2) =>
              if pastExpiry l (clock w2)
              then (Ok (Plain 410 "This short link has expired.", []), w2)
              else if String.eqb (url l) ""
                   then (Ok (NoResponse, [FillAndCount code l (cacheTtl l (clock w2))]), w2)
                   else (Ok (Redirect (url l), [FillAndCount code l (cacheTtl l (clock w2))]), w2)
          end
    end.
Proof.
  intros Hne. unfold GET.
  destruct (String.eqb code "") eqn:E; [apply String.eqb_eq in E; congruence|].
  unfold try_catch, bind, now, internalError, console_error, modify, ret.
  destruct (redis_get (cacheKey code) w) as [[cachedUrl|x] w1]; [|reflexivity].
  destruct (truthy cachedUrl) eqn:Ht.
  - rewrite (truthy_nonempty _ Ht). reflexivity.
  - destruct (prisma_link_findUnique code w1) as [[[l|]|x] w2]; try reflexivity.
    destruct (pastExpiry l (clock w2)); [reflexivity|].
    destruct (String.eqb (url l) ""); reflexivity.
Qed.

Lemma redis_get_unfold (key : string) (w : World) :
  redis_get key w =
    match await (ECacheGet key) CacheError w with
    | (Ok _, w1) =>
        (Ok (match cache w1 !! key with
             | Some (value, deadline) => if clock w1 <? deadline then Some value else None
             | None => None
             end), w1)
    | (Throw x, w1) => (Throw x, w1)
    end.
Proof.
  unfold redis_get, bind. destruct (await _ _ w) as [[[]|x] w1]; reflexivity.
Qed.

Lemma prisma_link_findUnique_unfold (c : string) (w : World) :
  prisma_link_findUnique c w =
    match await (EFindUnique c) StoreError w with
    | (Ok _, w1) => (Ok (findByCode c (links w1)), w1)
    | (Throw x, w1) => (Throw x, w1)
    end.
Proof.
  unfold prisma_link_findUnique, bind. destruct (await _ _ w) as [[[]|x] w1]; reflexivity.
Qed.

(** The handler itself never throws, and an answer with a status code
    leaves nothing for [after]. *)
Lemma GET_total (code : string) (w : World) :
  ∃ response tasks w', GET code w = (Ok (response, tasks), w') ∧
    (∀ status body, response = Plain status body → tasks = []).
Proof.
  destruct (decide (code = "")) as [->|Hne]; [eexists _, _, _; split; [reflexivity|auto]|].
  rewrite GET_unfold by exact Hne. unfold internalError.
  destruct (redis_get _ w) as [[c|x] w1]; [|eexists _, _, _; split; [reflexivity|auto]].
  destruct (truthy c); [eexists _, _, _; split; [reflexivity|discriminate]|].
  destruct (prisma_link_findUnique code w1) as [[[l|]|x] w2];
    try (eexists _, _, _; split; [reflexivity|auto]).
  destruct (pastExpiry l (clock w2)); [eexists _, _, _; split; [reflexivity|auto]|].
  destruct (String.eqb (url l) ""); eexists _, _, _; (split; [reflexivity|discriminate]).
Qed.

(** ** Redirect: failing lookups *)

Lemma await_trace (ev : Event) (x : Exn) (w : World) :
  trace (await ev x w).2 = (trace w ++ [ev])%list.
Proof.
  unfold await. destruct (fault (hd calm (ambient w))); cbn [snd];
    rewrite settle_trace; reflexivity.
Qed.

Lemma await_throws (ev : Event) (x y : Exn) (w w1 : World) :
  await ev x w = (Throw y, w1) → fault (hd calm (ambient w)) = true.
Proof. unfold await. destruct (fault (hd calm (ambient w))); [reflexivity|discriminate]. Qed.

(** C3 as the code has it: the cache lookup and the store lookup sit in
    one [try] block.  When the cache lookup throws, the handler logs and
    answers 500 without asking the store; when the cache lookup misses and
    the store lookup throws, it answers 500 as well; and a 500 is answered
    in no other case. *)
Theorem lookup_failure_is_internal_error (code : string) (w : World) :
  code ≠ "" →
  (fault (hd calm (ambient w)) = true →
     ∃ w', GET code w = (Ok (Plain 500 "Internal Server Error", []), w') ∧
           trace w' = (trace w ++ [ECacheGet (cacheKey code); redirectLog code])%list) ∧
  (∀ cachedUrl w1,
     redis_get (cacheKey code) w = (Ok cachedUrl, w1) → truthy cachedUrl = false →
     fault (hd calm (ambient w1)) = true →
     ∃ w', GET code w = (Ok (Plain 500 "Internal Server Error", []), w') ∧
           trace w' = (trace w ++ [ECacheGet (cacheKey code); EFindUnique code;
                                   redirectLog code])%list) ∧
  (∀ body tasks w',
     GET code w = (Ok (Plain 500 body, tasks), w') →
     (∃ x w1, redis_get (cacheKey code) w = (Throw x, w1)) ∨
     (∃ cachedUrl w1 x w2,
        redis_get (cacheKey code) w = (Ok cachedUrl, w1) ∧ truthy cachedUrl = false ∧
        prisma_link_findUnique code w1 = (Throw x, w2))).
Proof.
  intros Hne. rewrite GET_unfold by exact Hne. repeat split.
  - intros Hf. rewrite redis_get_unfold, (await_fault _ _ _ Hf).
    eexists. split; [reflexivity|].
    unfold internalError, emit. cbn [snd trace]. rewrite settle_trace. cbn [trace].
    rewrite <- app_assoc. reflexivity.
  - intros c w1 Hget Hmiss Hf.
    pose proof (await_trace (ECacheGet (cacheKey code)) CacheError w) as Htr.
    rewrite Hget, Hmiss. rewrite redis_get_unfold in Hget.
    destruct (await _ _ w) as [[[]|y] w0]; [|discriminate].
    assert (w0 = w1) as -> by congruence. cbn [snd] in Htr.
    rewrite prisma_link_findUnique_unfold, (await_fault _ _ _ Hf).
    eexists. split; [reflexivity|].
    unfold internalError, emit. cbn [snd trace]. rewrite settle_trace. cbn [trace].
    rewrite Htr, <- !app_assoc. reflexivity.
  - intros body tasks w'.
    destruct (redis_get (cacheKey code) w) as [[c|x] w1]; [|eauto].
    destruct (truthy c) eqn:Ht; [discriminate|].
    destruct (prisma_link_findUnique code w1) as [[[l|]|x] w2] eqn:Hfind.
    + destruct (pastExpiry l (clock w2)); [discriminate|].
      destruct (String.eqb (url l) ""); discriminate.
    + discriminate.
    + intros _. right. eauto 8.
Qed.

Lemma lookup_failure_is_internal_error_witness :
  ∃ w', GET "AbC123" cacheDownWorld = (Ok (Plain 500 "Internal Server Error", []), w') ∧
        trace w' = (trace cacheDownWorld ++
                    [ECacheGet (cacheKey "AbC123"); redirectLog "AbC123"])%list.
Proof.
  apply (proj1 (lookup_failure_is_internal_error "AbC123" cacheDownWorld
                  ltac:(discriminate))).
  reflexivity.
Defined.

(** With the cache down the visitor of a valid link gets a 500 and the
    store is never asked, whereas a plain miss in the same world redirects. *)
Lemma cache_failure_is_not_a_miss :
  fst (serve "AbC123" cacheDownWorld) = Ok (Plain 500 "Internal Server Error") ∧
  trace (snd (serve "AbC123" cacheDownWorld))
    = [ECacheGet "link:AbC123"; redirectLog "AbC123"] ∧
  fst (serve "AbC123" (mkWorld [sampleLink] 1 ∅ 1000 [] [calm] [] utc))
    = Ok (Redirect "https://example.com/a").
Proof. vm_compute. repeat split. Qed.

(** ** Redirect: the deferred work *)

Lemma await_cache (ev : Event) (x : Exn) (w : World) :
  cache (await ev x w).2 = cache w.
Proof.
  unfold await, settle.
  destruct (commits_frame (interference (hd calm (ambient w))) (emit ev w)) as (_ & _ & Hc & _).
  destruct (fault (hd calm (ambient w))); cbn [snd cache]; rewrite Hc; reflexivity.
Qed.

Lemma prisma_link_update_unfold (t : Where) (w : World) :
  prisma_link_update t w =
    match await (EUpdate t) StoreError w with
    | (Ok _, w1) =>
        match incrementRow t (links w1) with
        | Bumped rows => (Ok tt, setLinks rows w1)
        | OutOfRange => (Throw NumericOverflow, w1)
        | NoSuchRow => (Throw RecordNotFound, w1)
        end
    | (Throw x, w1) => (Throw x, w1)
    end.
Proof.
  unfold prisma_link_update, bind. destruct (await _ _ w) as [[[]|x] w1]; reflexivity.
Qed.

Lemma prisma_link_update_cache (t : Where) (w : World) :
  cache (prisma_link_update t w).2 = cache w.
Proof.
  rewrite prisma_link_update_unfold.
  pose proof (await_cache (EUpdate t) StoreError w) as H.
  destruct (await _ _ w) as [[[]|x] w1]; cbn [snd] in *; [|exact H].
  destruct (incrementRow t (links w1)); exact H.
Qed.

Lemma redis_set_unfold (key value : string) (ex : Z) (w : World) :
  redis_set key value ex w =
    match await (ECacheSet key value ex) CacheError w with
    | (Ok _, w1) =>
        if 0 <? ex
        then (Ok tt, setCache (<[key := (value, clock w1 + 1000 * ex)]> (cache w1)) w1)
        else (Throw CacheError, w1)
    | (Throw x, w1) => (Throw x, w1)
    end.
Proof.
  unfold redis_set, bind. destruct (await _ _ w) as [[[]|x] w1]; reflexivity.
Qed.

Lemma redis_set_quiet (key value : string) (ex : Z) (w : World) :
  quiet (hd calm (ambient w)) → 0 < ex →
  let w1 := passed (ECacheSet key value ex) w in
  redis_set key value ex w =
    (Ok tt, setCache (<[key := (value, clock w1 + 1000 * ex)]> (cache w)) w1).
Proof.
  intros Hq Hex. unfold redis_set.
  erewrite bind_ok by (apply await_quiet; exact Hq).
  apply Z.ltb_lt in Hex. rewrite Hex. reflexivity.
Qed.

(** The deferred unit of work after a store hit, run undisturbed, leaves
    the url in the cache until [ttl] seconds after the write. *)
Lemma runTask_fills_cache (code : string) (l : Link) (ttl : Z) (w : World) :
  quiet (hd calm (ambient w)) → 0 < ttl →
  cache (runTask (FillAndCount code l ttl) w).2 !! cacheKey code =
    Some (url l, clock w + Z.of_N (latency (hd calm (ambient w))) + 1000 * ttl).
Proof.
  intros Hq Httl. unfold runTask, try_catch.
  erewrite bind_ok by (apply redis_set_quiet; assumption).
  set (w1 := setCache _ _).
  pose proof (prisma_link_update_cache (ById (id l)) w1) as Hc.
  destruct (prisma_link_update (ById (id l)) w1) as [[[]|x] w2]; cbn [snd] in *.
  - rewrite Hc. subst w1. unfold setCache. cbn [cache]. apply lookup_insert_eq.
  - unfold console_error, modify, emit. cbn [snd cache]. rewrite Hc.
    subst w1. unfold setCache. cbn [cache]. apply lookup_insert_eq.
Qed.

(** C6 as the code has it, for a link whose [expiresAt] is an instant a
    [Date] can hold: the unit of work scheduled after a store hit caches
    the url for [max(1, floor((expiresAt - now) / 1000))] seconds, or for
    604800 seconds when the link has no [expiresAt].  Counted from the
    instant [now] at which the TTL is computed, the entry would end no
    later than [expiresAt] whenever at least one second is left; with less
    than a second left the TTL is one full second.  The entry itself is
    written later, by the deferred unit, and lasts the TTL from the moment
    [written] at which the cache call completes: it outlasts [expiresAt] by
    no more than the delay [written - now], plus at most a second when
    less than a second was left. *)
Theorem cache_ttl_on_store_hit (code c : string) (w w' : World)
    (response : Response) (l : Link) (ttl : Z) :
  GET code w = (Ok (response, [FillAndCount c l ttl]), w') → datable l →
  c = code ∧ 0 < ttl ∧
  match expiresAt l with
  | Some e =>
      ttl = Z.max 1 ((e - clock w') / 1000) ∧
      clock w' ≤ e ∧
      (1000 ≤ e - clock w' → clock w' + 1000 * ttl ≤ e) ∧
      (e - clock w' < 1000 → ttl = 1)
  | None => ttl = 604800
  end ∧
  (∀ w0, quiet (hd calm (ambient w0)) →
     let written := clock w0 + Z.of_N (latency (hd calm (ambient w0))) in
     cache (runTask (FillAndCount c l ttl) w0).2 !! cacheKey code =
       Some (url l, written + 1000 * ttl) ∧
     match expiresAt l with
     | Some e =>
         written + 1000 * ttl ≤ e + (written - clock w') + 1000 ∧
         (1000 ≤ e - clock w' → written + 1000 * ttl ≤ e + (written - clock w'))
     | None => True
     end).
Proof.
  intros Hget _.
  destruct (decide (code = "")) as [->|Hne]; [discriminate|].
  rewrite GET_unfold in Hget by exact Hne. unfold internalError in Hget.
  destruct (redis_get _ w) as [[cached|x] w1]; [|discriminate].
  destruct (truthy cached); [discriminate|].
  destruct (prisma_link_findUnique code w1) as [[[l0|]|x] w2]; try discriminate.
  destruct (pastExpiry l0 (clock w2)) eqn:Hexp; [discriminate|].
  assert (Heq : c = code ∧ l = l0 ∧ ttl = cacheTtl l0 (clock w2) ∧ w' = w2).
  { destruct (String.eqb (url l0) ""); repeat split; congruence. }
  destruct Heq as (-> & -> & -> & ->). clear Hget.
  assert (Hpos : 0 < cacheTtl l0 (clock w2)).
  { unfold cacheTtl. destruct (expiresAt l0); lia. }
  assert (Hshape :
    match expiresAt l0 with
    | Some e =>
        cacheTtl l0 (clock w2) = Z.max 1 ((e - clock w2) / 1000) ∧
        clock w2 ≤ e ∧
        (1000 ≤ e - clock w2 → clock w2 + 1000 * cacheTtl l0 (clock w2) ≤ e) ∧
        (e - clock w2 < 1000 → cacheTtl l0 (clock w2) = 1)
    | None => cacheTtl l0 (clock w2) = 604800
    end).
  { unfold cacheTtl, pastExpiry in *. destruct (expiresAt l0) as [e|]; [|reflexivity].
    apply Z.ltb_ge in Hexp.
    split; [reflexivity|]. split; [exact Hexp|]. split.
    - intros Hleft.
      pose proof (Z.mul_div_le (e - clock w2) 1000 ltac:(lia)) as Hfloor.
      assert (1 ≤ (e - clock w2) / 1000)
        by (apply Z.div_le_lower_bound; lia).
      lia.
    - intros Hleft.
      assert ((e - clock w2) / 1000 = 0) by (apply Z.div_small; lia).
      lia. }
  split; [reflexivity|]. split; [exact Hpos|]. split; [exact Hshape|].
  intros w0 Hq. cbv zeta. split; [apply runTask_fills_cache; assumption|].
  destruct (expiresAt l0) as [e|]; [|exact I].
  destruct Hshape as (Httl & Hle & Hfull & Hlast).
  split; [|intros Hleft; specialize (Hfull Hleft); lia].
  destruct (Z.le_gt_cases 1000 (e - clock w2)) as [Hleft|Hleft].
  - specialize (Hfull Hleft). lia.
  - rewrite (Hlast ltac:(lia)). lia.
Qed.

Lemma cache_ttl_on_store_hit_witness :
  5 = Z.max 1 ((6000 - 1000) / 1000) ∧
  1000 + 1000 * 5 ≤ 6000 ∧
  cache (runTask (FillAndCount "slow01"
                    (mkLink 0 "https://example.com/slow" "slow01" 0 (Some 6000) 0) 5)
                 (snd (GET "slow01" slowCacheWorld))).2 !! cacheKey "slow01"
    = Some ("https://example.com/slow", 1000 + 3000 + 1000 * 5).
Proof.
  destruct (cache_ttl_on_store_hit "slow01" "slow01" slowCacheWorld
              (snd (GET "slow01" slowCacheWorld))
              (Redirect "https://example.com/slow")
              (mkLink 0 "https://example.com/slow" "slow01" 0 (Some 6000) 0) 5
              ltac:(vm_compute; reflexivity) ltac:(vm_compute; reflexivity))
    as (_ & _ & Httl & Hfill).
  cbn [expiresAt] in Httl. destruct Httl as (Httl & _ & Hfull & _).
  split; [exact Httl|]. split; [apply Hfull; vm_compute; discriminate|].
  apply (Hfill (snd (GET "slow01" slowCacheWorld))). split; reflexivity.
Defined.

(** Two entries that outlive their links.  In [lastSecondWorld] 200 ms
    are left and nothing takes time: the TTL is clamped to one second and
    the entry lasts until 2000, past the link's [expiresAt] of 1200.  In
    [slowCacheWorld] five full seconds are left and the TTL is those five
    seconds, but the cache write takes three: the entry lasts until 9000,
    past the link's [expiresAt] of 6000. *)
Lemma cache_entry_outlives_link :
  (∃ l e deadline,
     findByCode "soon01" (links lastSecondWorld) = Some l ∧
     expiresAt l = Some e ∧
     fst (GET "soon01" lastSecondWorld)
       = Ok (Redirect (url l), [FillAndCount "soon01" l (Z.max 1 ((e - 1000) / 1000))]) ∧
     cache (snd (serve "soon01" lastSecondWorld)) !! cacheKey "soon01"
       = Some (url l, deadline) ∧
     e < deadline) ∧
  (∃ l e deadline,
     findByCode "slow01" (links slowCacheWorld) = Some l ∧
     expiresAt l = Some e ∧ 1000 ≤ e - clock slowCacheWorld ∧
     fst (GET "slow01" slowCacheWorld)
       = Ok (Redirect (url l), [FillAndCount "slow01" l (Z.max 1 ((e - 1000) / 1000))]) ∧
     cache (snd (serve "slow01" slowCacheWorld)) !! cacheKey "slow01"
       = Some (url l, deadline) ∧
     e < deadline).
Proof.
  split.
  - exists (mkLink 0 "https://example.com/soon" "soon01" 0 (Some 1200) 0), 1200, 2000.
    vm_compute. repeat split.
  - exists (mkLink 0 "https://example.com/slow" "slow01" 0 (Some 6000) 0), 6000, 9000.
    vm_compute. repeat split. discriminate.
Qed.

Lemma prisma_link_update_trace (t : Where) (w : World) :
  trace (prisma_link_update t w).2 = (trace w ++ [EUpdate t])%list.
Proof.
  rewrite prisma_link_update_unfold.
  pose proof (await_trace (EUpdate t) StoreError w) as H.
  destruct (await _ _ w) as [[[]|x] w1]; cbn [snd] in *; [|exact H].
  destruct (incrementRow t (links w1)); exact H.
Qed.

Lemma settle_links_alone (a : Ambient) (w : World) :
  interference a = [] → links (settle a w) = links w.
Proof. intros H. unfold settle. rewrite H. reflexivity. Qed.

Lemma serve_unfold (code : string) (w : World) :
  serve code w =
    match GET code w with
    | (Ok (response, tasks), w1) =>
        match runTasks tasks w1 with
        | (Ok _, w2) => (Ok response, w2)
        | (Throw x, w2) => (Throw x, w2)
        end
    | (Throw x, w1) => (Throw x, w1)
    end.
Proof.
  unfold serve, bind. destruct (GET code w) as [[[response tasks]|x] w1]; [|reflexivity].
  destruct (runTasks tasks w1) as [[[]|x] w2]; reflexivity.
Qed.

Lemma runTasks_one (t : Task) (w : World) :
  runTasks [t] w =
    match runTask t w with
    | (Ok _, w1) => (Ok tt, w1)
    | (Throw x, w1) => (Throw x, w1)
    end.
Proof.
  cbn [runTasks]. unfold bind. destruct (runTask t w) as [[[]|x] w1]; reflexivity.
Qed.

(** The unit of work after a store hit when its cache write throws: it
    logs and ends; no update is issued and, other requests aside, the table
    is left as it was. *)
Lemma runTask_fill_throws (code : string) (l : Link) (ttl : Z) (w : World) :
  fault (hd calm (ambient w)) = true →
  ∃ w', runTask (FillAndCount code l ttl) w = (Ok tt, w') ∧
        trace w' = (trace w ++ [ECacheSet (cacheKey code) (url l) ttl; missLog])%list ∧
        (interference (hd calm (ambient w)) = [] → links w' = links w).
Proof.
  intros Hf. unfold runTask, try_catch.
  erewrite bind_throw
    by (rewrite redis_set_unfold, (await_fault _ _ _ Hf); reflexivity).
  eexists. split; [reflexivity|].
  unfold console_error, modify, emit. cbn [snd trace links]. split.
  - rewrite settle_trace. cbn [trace]. rewrite <- app_assoc. reflexivity.
  - intros Hi. rewrite settle_links_alone by exact Hi. reflexivity.
Qed.

(** The same unit when the cache write goes through: the click update is
    the next call issued. *)
Lemma runTask_fill_passes (code : string) (l : Link) (ttl : Z) (w : World) :
  fault (hd calm (ambient w)) = false → 0 < ttl →
  ∃ rest w', runTask (FillAndCount code l ttl) w = (Ok tt, w') ∧
             trace w' = (trace w ++ [ECacheSet (cacheKey code) (url l) ttl;
                                     EUpdate (ById (id l))] ++ rest)%list.
Proof.
  intros Hf Httl. unfold runTask, try_catch.
  pose proof (await_trace (ECacheSet (cacheKey code) (url l) ttl) CacheError w) as Htr.
  unfold bind. rewrite redis_set_unfold.
  destruct (await _ _ w) as [[[]|x] w1] eqn:Haw;
    [|apply await_throws in Haw; congruence].
  cbn [snd] in Htr. apply Z.ltb_lt in Httl. rewrite Httl.
  set (w2 := setCache _ w1).
  pose proof (prisma_link_update_trace (ById (id l)) w2) as Hup.
  destruct (prisma_link_update _ w2) as [[[]|x] w3]; cbn [snd] in Hup.
  - exists [], w3. split; [reflexivity|].
    rewrite Hup. subst w2. unfold setCache. cbn [trace].
    rewrite Htr, <- app_assoc. reflexivity.
  - eexists [_], _. split; [reflexivity|].
    unfold console_error, modify, emit. cbn [snd trace].
    rewrite Hup. subst w2. unfold setCache. cbn [trace].
    rewrite Htr, <- !app_assoc. reflexivity.
Qed.

(** C10: a visit that misses the cache and finds an unexpired link with a
    url hands exactly one closure to [after], the one that first writes
    the cache and then increments the counter inside a single [try], and
    the request ends when that closure has run.  When the cache write
    throws, the closure logs and ends: no update is issued to the store
    and, other requests aside, the table is left as it was, so the click is
    lost.  When the cache write goes through (for a link whose [expiresAt]
    a [Date] can hold), the update is the next call issued. *)
Theorem fill_then_count_is_one_unit (code : string) (w w1 w2 : World)
    (cached : option string) (l : Link) :
  code ≠ "" →
  redis_get (cacheKey code) w = (Ok cached, w1) → truthy cached = false →
  prisma_link_findUnique code w1 = (Ok (Some l), w2) →
  pastExpiry l (clock w2) = false → url l ≠ "" →
  let ttl := cacheTtl l (clock w2) in
  let job := FillAndCount code l ttl in
  GET code w = (Ok (Redirect (url l), [job]), w2) ∧
  serve code w = (Ok (Redirect (url l)), (runTasks [job] w2).2) ∧
  (∀ w0, fault (hd calm (ambient w0)) = true →
     ∃ w', runTasks [job] w0 = (Ok tt, w') ∧
           trace w' = (trace w0 ++ [ECacheSet (cacheKey code) (url l) ttl; missLog])%list ∧
           (interference (hd calm (ambient w0)) = [] → links w' = links w0)) ∧
  (∀ w0, fault (hd calm (ambient w0)) = false → datable l →
     ∃ rest w', runTasks [job] w0 = (Ok tt, w') ∧
                trace w' = (trace w0 ++ [ECacheSet (cacheKey code) (url l) ttl;
                                         EUpdate (ById (id l))] ++ rest)%list).
Proof.
  intros Hne Hget Hmiss Hfind Hlive Hurl. cbv zeta.
  assert (HGET : GET code w
                 = (Ok (Redirect (url l),
                        [FillAndCount code l (cacheTtl l (clock w2))]), w2)).
  { rewrite GET_unfold by exact Hne. rewrite Hget, Hmiss, Hfind, Hlive.
    apply String.eqb_neq in Hurl. rewrite Hurl. reflexivity. }
  split; [exact HGET|]. split; [|split].
  - rewrite serve_unfold, HGET, runTasks_one. unfold runTask, try_catch.
    destruct (bind _ _ w2) as [[[]|z] w5]; reflexivity.
  - intros w0 Hf.
    destruct (runTask_fill_throws code l (cacheTtl l (clock w2)) w0 Hf)
      as (w' & Hrun & Htrace & Hlinks).
    exists w'. rewrite runTasks_one, Hrun. auto.
  - intros w0 Hf _.
    assert (Hpos : 0 < cacheTtl l (clock w2))
      by (unfold cacheTtl; destruct (expiresAt l); lia).
    destruct (runTask_fill_passes code l (cacheTtl l (clock w2)) w0 Hf Hpos)
      as (rest & w' & Hrun & Htrace).
    exists rest, w'. rewrite runTasks_one, Hrun. auto.
Qed.

Lemma fill_then_count_is_one_unit_witness :
  let job := FillAndCount "AbC123" sampleLink 604799 in
  let w2 := snd (GET "AbC123" setFailsWorld) in
  fst (GET "AbC123" setFailsWorld) = Ok (Redirect "https://example.com/a", [job]) ∧
  ∃ w', runTasks [job] w2 = (Ok tt, w') ∧
        trace w' = [ECacheGet "link:AbC123"; EFindUnique "AbC123";
                    ECacheSet "link:AbC123" "https://example.com/a" 604799; missLog] ∧
        links w' = [sampleLink].
Proof.
  cbv zeta.
  destruct (fill_then_count_is_one_unit "AbC123" setFailsWorld
              (passed (ECacheGet "link:AbC123") setFailsWorld)
              (snd (GET "AbC123" setFailsWorld)) None sampleLink
              ltac:(discriminate) ltac:(vm_compute; reflexivity) eq_refl
              ltac:(vm_compute; reflexivity) ltac:(vm_compute; reflexivity)
              ltac:(discriminate))
    as (Hget & _ & Hthrows & _).
  split; [rewrite Hget; reflexivity|].
  destruct (Hthrows (snd (GET "AbC123" setFailsWorld)) eq_refl)
    as (w' & Hrun & Htrace & Hlinks).
  exists w'. split; [exact Hrun|]. split; [exact Htrace|].
  apply Hlinks. reflexivity.
Defined.

(** ** Redirect: expiry *)

(** The path through the store refuses an expired link and schedules
    nothing. *)
Lemma expired_link_gone_on_miss (code : string) (w w1 w2 : World) (l : Link) (e : Z) :
  code ≠ "" →
  redis_get (cacheKey code) w = (Ok None, w1) →
  prisma_link_findUnique code w1 = (Ok (Some l), w2) →
  expiresAt l = Some e → e < clock w2 →
  GET code w = (Ok (Plain 410 "This short link has expired.", []), w2).
Proof.
  intros Hne Hget Hfind He Hlt. rewrite GET_unfold by exact Hne.
  rewrite Hget. cbn [truthy]. rewrite Hfind.
  unfold pastExpiry. rewrite He. apply Z.ltb_lt in Hlt. rewrite Hlt. reflexivity.
Qed.

(** The path through the cache redirects on the cached url alone: the
    table is not read, so [expiresAt] plays no part. *)
Lemma cache_hit_redirects (code u : string) (w w1 : World) :
  code ≠ "" → u ≠ "" →
  redis_get (cacheKey code) w = (Ok (Some u), w1) →
  GET code w = (Ok (Redirect u, [CountHit code]), w1).
Proof.
  intros Hne Hu Hget. rewrite GET_unfold by exact Hne. rewrite Hget.
  destruct u as [|a u]; [congruence|]. reflexivity.
Qed.

(** C2, where the code departs from it: a visit to an expired link whose
    cache entry is still alive is redirected, and counted, instead of being
    answered 410. *)
Theorem expired_link_redirects_on_cache_hit :
  ∃ l l',
    findByCode "soon01" (links staleWorld) = Some l ∧
    expiresAt l = Some 1200 ∧ clock staleWorld = 1500 ∧ clicks l = 1 ∧
    fst (serve "soon01" staleWorld) = Ok (Redirect "https://example.com/soon") ∧
    findByCode "soon01" (links (snd (serve "soon01" staleWorld))) = Some l' ∧
    clicks l' = 2.
Proof.
  exists (mkLink 0 "https://example.com/soon" "soon01" 0 (Some 1200) 1),
         (mkLink 0 "https://example.com/soon" "soon01" 0 (Some 1200) 2).
  vm_compute. repeat split.
Qed.

(** ** Creation: the check before the insert *)

Lemma prisma_link_findUnique_trace (c : string) (w : World) :
  trace (prisma_link_findUnique c w).2 = (trace w ++ [EFindUnique c])%list.
Proof.
  rewrite prisma_link_findUnique_unfold.
  pose proof (await_trace (EFindUnique c) StoreError w) as H.
  destruct (await _ _ w) as [[[]|x] w1]; exact H.
Qed.

Lemma prisma_link_create_trace (u c : string) (e : option Z) (w : World) :
  trace (prisma_link_create u c e w).2 = (trace w ++ [ECreate u c e])%list.
Proof.
  rewrite prisma_link_create_unfold.
  pose proof (await_trace (ECreate u c e) StoreError w) as H.
  destruct (await _ _ w) as [[[]|x] w1]; cbn [snd] in *; [|exact H].
  destruct (insertRow u c e w1) as [[l w2]|] eqn:Hins; [|exact H].
  apply insertRow_inv in Hins as (_ & _ & _ & Ht & _). cbn [snd]. rewrite Ht. exact H.
Qed.

(** Whatever the surroundings do, the loop issues nothing but generator
    calls each followed by the lookup of the code just generated, and a
    code it declares unique is the last one looked up. *)
Lemma uniqueCodeLoop_trace (n : nat) (s : string) (w : World) :
  ∃ codes,
    (length codes ≤ n)%nat ∧
    trace (uniqueCodeLoop n s w).2 = (trace w ++ probes codes)%list ∧
    (∀ c w1, uniqueCodeLoop n s w = (Ok (c, true), w1) →
             ∃ front, codes = (front ++ [c])%list).
Proof.
  revert s w. induction n as [|n IH]; intros s w.
  - exists []. split; [reflexivity|]. split; [symmetry; apply app_nil_r|]. discriminate.
  - unfold uniqueCodeLoop; fold uniqueCodeLoop.
    erewrite bind_ok by apply generateShortCode_unfold.
    set (c0 := fst (drawChars 6 (random w))). set (w0 := emit _ _).
    pose proof (prisma_link_findUnique_trace c0 w0) as Htr.
    unfold bind.
    destruct (prisma_link_findUnique c0 w0) as [[[l|]|x] w1]; cbn [snd] in Htr.
    + destruct (IH c0 w1) as (codes & Hlen & Hcodes & Hlast).
      exists (c0 :: codes). split; [cbn [length]; lia|]. split; [|].
      * rewrite Hcodes, Htr. subst w0. unfold emit, probes. cbn [trace flat_map].
        rewrite <- !app_assoc. reflexivity.
      * intros c w2 Hrun. destruct (Hlast c w2 Hrun) as [front ->].
        exists (c0 :: front). reflexivity.
    + exists [c0]. split; [cbn [length]; lia|]. split.
      * unfold ret. cbn [snd]. rewrite Htr. subst w0. unfold emit, probes.
        cbn [trace flat_map]. rewrite <- !app_assoc. reflexivity.
      * intros c w2 Hrun. exists []. unfold ret in Hrun. cbn [app]. congruence.
    + exists [c0]. split; [cbn [length]; lia|]. split.
      * cbn [snd]. rewrite Htr. subst w0. unfold emit, probes. cbn [trace flat_map].
        rewrite <- !app_assoc. reflexivity.
      * discriminate.
Qed.

(** X18: everything the action issues for an accepted url, in any
    surroundings: up to five rounds of generate-then-look-up, then at most
    one insert, of the code looked up last; a failed lookup or a failed
    insert is followed by the log line only, never by another attempt. *)
Lemma createShortLink_issues (v : string → bool) (u : string) (w : World) :
  u ≠ "" → v u = true →
  ∃ codes tail,
    trace (createShortLink v (Some u) w).2 = (trace w ++ probes codes ++ tail)%list ∧
    (length codes ≤ 5)%nat ∧
    (tail = [] ∨
     tail = [EConsoleError "Failed to create short link:"] ∨
     ∃ front c e,
       codes = (front ++ [c])%list ∧
       (tail = [ECreate u c e; ERevalidate "/"] ∨
        tail = [ECreate u c e; EConsoleError "Failed to create short link:"])).
Proof.
  intros Hne Hv. rewrite createShortLink_valid by assumption.
  destruct (uniqueCodeLoop_trace 5 "" w) as (codes & Hlen & Htr & Hlast).
  destruct (uniqueCodeLoop 5 "" w) as [[[c [|]]|x] w1]; cbn [snd] in Htr.
  - destruct (Hlast c w1 eq_refl) as [front Hfront].
    pose proof (prisma_link_create_trace u c (Some (setDate_plus (zone w1) 7 (clock w1))) w1) as Hcr.
    destruct (prisma_link_create u c _ w1) as [[l|y] w2]; cbn [snd] in Hcr.
    + exists codes, [ECreate u c (Some (setDate_plus (zone w1) 7 (clock w1))); ERevalidate "/"].
      split; [|split; [exact Hlen|]].
      * unfold emit. cbn [snd trace]. rewrite Hcr, Htr, <- !app_assoc. reflexivity.
      * right; right. exists front, c, (Some (setDate_plus (zone w1) 7 (clock w1))). auto.
    + exists codes, [ECreate u c (Some (setDate_plus (zone w1) 7 (clock w1)));
                     EConsoleError "Failed to create short link:"].
      split; [|split; [exact Hlen|]].
      * unfold unexpected, emit. cbn [snd trace].
        rewrite Hcr, Htr, <- !app_assoc. reflexivity.
      * right; right. exists front, c, (Some (setDate_plus (zone w1) 7 (clock w1))). auto.
  - exists codes, []. split; [|split; [exact Hlen | left; reflexivity]].
    cbn [snd]. rewrite Htr, app_nil_r. reflexivity.
  - exists codes, [EConsoleError "Failed to create short link:"].
    split; [|split; [exact Hlen | right; left; reflexivity]].
    unfold unexpected, emit. cbn [snd trace]. rewrite Htr, <- app_assoc. reflexivity.
Qed.

(** C1, where the code departs from it: the action looks the candidate up
    with [findUnique] before it inserts, and when the insert then meets the
    unique index it neither generates another code nor retries; it answers
    with the unexpected-error object. *)
Theorem createShortLink_checks_then_inserts :
  let outcome := createShortLink httpScheme (Some "https://example.com/a") raceWorld in
  fst outcome = Ok (failed "An unexpected error occurred") ∧
  trace (snd outcome) =
    [EGenerate "AbC123"; EFindUnique "AbC123";
     ECreate "https://example.com/a" "AbC123" (Some 604801000);
     EConsoleError "Failed to create short link:"] ∧
  map url (links (snd outcome)) = ["https://other.example/"].
Proof. vm_compute. repeat split. Qed.

(** ** The click counter *)

Lemma row_le_refl (l : Link) : row_le l l.
Proof. unfold row_le. repeat split; lia. Qed.

Lemma row_le_trans (a b c : Link) : row_le a b → row_le b c → row_le a c.
Proof. unfold row_le. intros (?&?&?&?&?&?) (?&?&?&?&?&?). repeat split; try congruence; lia. Qed.

Lemma rows_le_refl (t : list Link) : Forall2 row_le t t.
Proof. induction t; constructor; auto using row_le_refl. Qed.

Lemma grows_refl (t : list Link) : grows t t.
Proof. exists t, []. rewrite app_nil_r. auto using rows_le_refl. Qed.

Lemma rows_le_nonneg (t t' : list Link) :
  Forall2 row_le t t' → Forall (λ l, 0 ≤ clicks l) t → Forall (λ l, 0 ≤ clicks l) t'.
Proof.
  induction 1 as [|l l' t t' Hl _ IH]; intros Hn; [constructor|].
  apply Forall_cons in Hn as [H0 Hn]. constructor; [|auto].
  destruct Hl as (_&_&_&_&_&Hc). lia.
Qed.

Lemma grows_trans (a b c : list Link) : grows a b → grows b c → grows a c.
Proof.
  intros (o1 & n1 & -> & Ho1 & Hn1) (o2 & n2 & -> & Ho2 & Hn2).
  apply Forall2_app_inv_l in Ho2 as (k1 & k2 & Hk1 & Hk2 & ->).
  exists k1, (k2 ++ n2)%list. rewrite app_assoc. split; [reflexivity|]. split.
  - eapply Forall2_trans; [|exact Ho1|exact Hk1]. apply row_le_trans.
  - apply Forall_app. split; [|exact Hn2]. eapply rows_le_nonneg; eassumption.
Qed.


Lemma bump_le (l : Link) : row_le l (bump l).
Proof. unfold row_le, bump. cbn. repeat split; lia. Qed.

(** A successful increment rewrites exactly one row, the one addressed,
    to its stored count plus one. *)
Lemma incrementRow_bumped (t : Where) (rows rows' : list Link) :
  incrementRow t rows = Bumped rows' →
  ∃ before l after,
    rows = (before ++ l :: after)%list ∧ matches t l = true ∧
    clicks l < int4_max ∧
    rows' = (before ++ bump l :: after)%list.
Proof.
  revert rows'. induction rows as [|l rest IH]; intros rows'; [discriminate|].
  cbn [incrementRow]. destruct (matches t l) eqn:Hm.
  - destruct (clicks l <? int4_max) eqn:Hlt; [|discriminate].
    intros H. injection H as <-. exists [], l, rest.
    apply Z.ltb_lt in Hlt. auto.
  - destruct (incrementRow t rest) as [rest'| |]; try discriminate.
    intros H. injection H as <-.
    destruct (IH rest' eq_refl) as (before & l0 & after & -> & Hm0 & Hlt & ->).
    exists (l :: before), l0, after. auto.
Qed.

Lemma incrementRow_grows (t : Where) (rows rows' : list Link) :
  incrementRow t rows = Bumped rows' → grows rows rows'.
Proof.
  intros H. apply incrementRow_bumped in H as (before & l & after & -> & _ & _ & ->).
  exists (before ++ bump l :: after)%list, []. rewrite app_nil_r.
  split; [reflexivity|]. split; [|constructor].
  apply Forall2_app; [apply rows_le_refl|].
  constructor; [apply bump_le | apply rows_le_refl].
Qed.

Lemma insertRow_grows (u c : string) (e : option Z) (w : World) l w' :
  insertRow u c e w = Some (l, w') → grows (links w) (links w').
Proof.
  intros H. apply insertRow_inv in H as (_ & -> & -> & _).
  exists (links w), [mkLink (nextId w) u c (clock w) e 0].
  split; [reflexivity|]. split; [apply rows_le_refl|].
  constructor; [cbn; lia | constructor].
Qed.

Lemma commit_grows (c : Concurrent) (w : World) : grows (links w) (links (commit c w)).
Proof.
  destruct c as [u s e|s]; cbn [commit].
  - destruct (insertRow u s e w) as [[l w']|] eqn:H; [|apply grows_refl].
    eapply insertRow_grows, H.
  - destruct (incrementRow (ByShortCode s) (links w)) eqn:H; try apply grows_refl.
    cbn [setLinks links]. eapply incrementRow_grows, H.
Qed.

Lemma settle_grows (a : Ambient) (w : World) : grows (links w) (links (settle a w)).
Proof.
  unfold settle. cbn [links].
  generalize (interference a). intros cs. revert w.
  induction cs as [|c cs IH]; intros w; cbn [foldl]; [apply grows_refl|].
  eapply grows_trans; [apply commit_grows | apply IH].
Qed.

Lemma steady_ret {A} (a : A) : steady (ret a).
Proof. intros w. apply grows_refl. Qed.

Lemma steady_bind {A B} (m : M A) (k : A → M B) :
  steady m → (∀ a, steady (k a)) → steady (bind m k).
Proof.
  intros Hm Hk w. unfold bind. specialize (Hm w).
  destruct (m w) as [[a|x] w1]; cbn [snd] in *; [|exact Hm].
  eapply grows_trans; [exact Hm | apply Hk].
Qed.


Lemma steady_await (ev : Event) (x : Exn) : steady (await ev x).
Proof.
  intros w. unfold await.
  destruct (fault (hd calm (ambient w))); cbn [snd];
    apply (settle_grows _ (emit ev w)).
Qed.

Lemma steady_now : steady now.
Proof. intros w. apply grows_refl. Qed.

Lemma steady_get_world : steady get_world.
Proof. intros w. apply grows_refl. Qed.

Lemma steady_console_error (msg : string) : steady (console_error msg).
Proof. intros w. apply grows_refl. Qed.

Lemma steady_revalidatePath (path : string) : steady (revalidatePath path).
Proof. intros w. apply grows_refl. Qed.

Lemma steady_generateShortCode : steady generateShortCode.
Proof. intros w. rewrite generateShortCode_unfold. apply grows_refl. Qed.

Lemma steady_findUnique (c : string) : steady (prisma_link_findUnique c).
Proof.
  unfold prisma_link_findUnique.
  apply steady_bind; [apply steady_await|]. intros _.
  apply steady_bind; [apply steady_get_world|]. intros w. apply steady_ret.
Qed.

Lemma steady_findMany : steady prisma_link_findMany.
Proof.
  unfold prisma_link_findMany.
  apply steady_bind; [apply steady_await|]. intros _.
  apply steady_bind; [apply steady_get_world|]. intros w. apply steady_ret.
Qed.

Lemma steady_create (u c : string) (e : option Z) : steady (prisma_link_create u c e).
Proof.
  unfold prisma_link_create.
  apply steady_bind; [apply steady_await|]. intros _ w.
  destruct (insertRow u c e w) as [[l w']|] eqn:H; cbn [snd]; [|apply grows_refl].
  eapply insertRow_grows, H.
Qed.

Lemma steady_update (t : Where) : steady (prisma_link_update t).
Proof.
  unfold prisma_link_update.
  apply steady_bind; [apply steady_await|]. intros _ w.
  destruct (incrementRow t (links w)) eqn:H; cbn [snd]; try apply grows_refl.
  eapply incrementRow_grows, H.
Qed.

Lemma steady_redis_get (key : string) : steady (redis_get key).
Proof.
  unfold redis_get.
  apply steady_bind; [apply steady_await|]. intros _.
  apply steady_bind; [apply steady_get_world|]. intros w. apply steady_ret.
Qed.

Lemma steady_redis_set (key value : string) (ex : Z) : steady (redis_set key value ex).
Proof.
  unfold redis_set.
  apply steady_bind; [apply steady_await|]. intros _ w.
  destruct (0 <? ex); apply grows_refl.
Qed.

Create HintDb steady.
#[local] Hint Resolve steady_ret steady_await steady_now steady_get_world
  steady_console_error steady_revalidatePath steady_generateShortCode
  steady_findUnique steady_findMany steady_create steady_update
  steady_redis_get steady_redis_set : steady.


Lemma steady_uniqueCodeLoop (n : nat) (s : string) : steady (uniqueCodeLoop n s).
Proof.
  revert s. induction n as [|n IH]; intros s; unfold uniqueCodeLoop; fold uniqueCodeLoop.
  - apply steady_ret.
  - apply steady_bind; [apply steady_generateShortCode|]. intros c.
    apply steady_bind; [apply steady_findUnique|]. intros [l|]; [apply IH | apply steady_ret].
Qed.
#[local] Hint Resolve steady_uniqueCodeLoop : steady.









Lemma prisma_link_update_quiet (t : Where) (w : World) :
  quiet (hd calm (ambient w)) →
  prisma_link_update t w =
    match incrementRow t (links w) with
    | Bumped rows => (Ok tt, setLinks rows (passed (EUpdate t) w))
    | OutOfRange => (Throw NumericOverflow, passed (EUpdate t) w)
    | NoSuchRow => (Throw RecordNotFound, passed (EUpdate t) w)
    end.
Proof.
  intros Hq. rewrite prisma_link_update_unfold, (await_quiet _ _ _ Hq).
  reflexivity.
Qed.




(** * Further properties *)

(** ** Rows and keys *)

Lemma findByCode_none (c : string) (rows : list Link) :
  findByCode c rows = None ↔ c ∉ map shortCode rows.
Proof.
  unfold findByCode. induction rows as [|l rows IH]; cbn [List.find map].
  - split; [intros _; apply not_elem_of_nil | reflexivity].
  - unfold hasCode at 1. destruct (String.eqb (shortCode l) c) eqn:E.
    + apply String.eqb_eq in E. split; [discriminate|].
      intros H. exfalso. apply H. rewrite E. apply list_elem_of_here.
    + apply String.eqb_neq in E. rewrite IH. rewrite not_elem_of_cons.
      split; [intros H; split; [congruence | exact H] | intros [_ H]; exact H].
Qed.

Lemma findByCode_split (c : string) (rows : list Link) (l : Link) :
  findByCode c rows = Some l →
  ∃ before after,
    rows = (before ++ l :: after)%list ∧ findByCode c before = None ∧
    shortCode l = c.
Proof.
  unfold findByCode. induction rows as [|r rows IH]; cbn [List.find]; [discriminate|].
  unfold hasCode at 1. destruct (String.eqb (shortCode r) c) eqn:E.
  - intros H. assert (r = l) as -> by congruence. apply String.eqb_eq in E.
    exists [], rows. auto.
  - intros H. destruct (IH H) as (before & after & -> & Hb & Hc).
    exists (r :: before), after. split; [reflexivity|]. split; [|exact Hc].
    cbn [List.find]. unfold hasCode at 1. rewrite E. exact Hb.
Qed.

Lemma findByCode_app (c : string) (before after : list Link) :
  findByCode c before = None →
  findByCode c (before ++ after) = findByCode c after.
Proof.
  unfold findByCode. induction before as [|r before IH]; cbn [List.find app]; [reflexivity|].
  destruct (hasCode c r); [discriminate | exact IH].
Qed.

Lemma findByCode_here (c : string) (l : Link) (after : list Link) :
  shortCode l = c → findByCode c (l :: after) = Some l.
Proof.
  intros H. unfold findByCode. cbn [List.find]. unfold hasCode.
  apply String.eqb_eq in H. rewrite H. reflexivity.
Qed.

(** The increment addressed by short code lands on the row the lookup by
    that code finds. *)
Lemma incrementRow_by_code (c : string) (before after : list Link) (l : Link) :
  findByCode c before = None → shortCode l = c →
  incrementRow (ByShortCode c) (before ++ l :: after) =
    if clicks l <? int4_max then Bumped (before ++ bump l :: after) else OutOfRange.
Proof.
  intros Hb Hl. unfold findByCode in Hb.
  induction before as [|r before IH]; cbn [incrementRow app matches].
  - unfold hasCode. apply String.eqb_eq in Hl. rewrite Hl. reflexivity.
  - cbn [List.find] in Hb. destruct (hasCode c r); [discriminate|].
    rewrite (IH Hb). destruct (clicks l <? int4_max); reflexivity.
Qed.

Lemma incrementRow_no_code (c : string) (rows : list Link) :
  findByCode c rows = None → incrementRow (ByShortCode c) rows = NoSuchRow.
Proof.
  unfold findByCode. induction rows as [|r rows IH]; cbn [incrementRow List.find matches];
    [reflexivity|].
  destruct (hasCode c r); [discriminate|]. intros H. rewrite (IH H). reflexivity.
Qed.

(** With a primary key that holds no value twice, the increment addressed
    by [id] lands on the row that carries it. *)
Lemma incrementRow_by_id (before after : list Link) (l : Link) :
  NoDup (map id (before ++ l :: after)) →
  incrementRow (ById (id l)) (before ++ l :: after) =
    if clicks l <? int4_max then Bumped (before ++ bump l :: after) else OutOfRange.
Proof.
  induction before as [|r before IH]; cbn [incrementRow app matches map]; intros Hnd.
  - rewrite N.eqb_refl. reflexivity.
  - apply NoDup_cons in Hnd as [Hr Hnd].
    destruct (N.eqb (id r) (id l)) eqn:E.
    + apply N.eqb_eq in E. exfalso. apply Hr. rewrite E, map_app.
      apply elem_of_app. right. apply list_elem_of_here.
    + rewrite (IH Hnd). destruct (clicks l <? int4_max); reflexivity.
Qed.

Lemma bumped_keys (rows rows' : list Link) (t : Where) :
  incrementRow t rows = Bumped rows' →
  map shortCode rows' = map shortCode rows ∧ map id rows' = map id rows.
Proof.
  intros H. apply incrementRow_bumped in H as (before & l & after & -> & _ & _ & ->).
  rewrite !map_app. cbn [map bump shortCode id]. split; reflexivity.
Qed.

Lemma insertRow_sound (u c : string) (e : option Z) (w w' : World) (l : Link) :
  insertRow u c e w = Some (l, w') → sound w → sound w'.
Proof.
  unfold insertRow. destruct (findByCode c (links w)) eqn:Hfree; [discriminate|].
  intros H. injection H as <- <-. intros (Hcodes & Hids & Hissued).
  unfold sound. cbn [links nextId]. rewrite !map_app. cbn [map shortCode id].
  split; [|split].
  - apply NoDup_app. split; [exact Hcodes|]. split; [|apply NoDup_singleton].
    intros x Hx Hx'. apply list_elem_of_singleton in Hx'. subst x.
    apply findByCode_none in Hfree. contradiction.
  - apply NoDup_app. split; [exact Hids|]. split; [|apply NoDup_singleton].
    intros x Hx Hx'. apply list_elem_of_singleton in Hx'. subst x.
    apply list_elem_of_fmap in Hx as (r & Hr & Hin).
    rewrite Forall_forall in Hissued. specialize (Hissued r Hin). lia.
  - apply Forall_app. split.
    + eapply Forall_impl; [exact Hissued|]. intros r Hr. cbn beta in Hr. lia.
    + constructor; [cbn [id]; lia | constructor].
Qed.

Lemma bumped_sound (t : Where) (rows : list Link) (w : World) :
  incrementRow t (links w) = Bumped rows → sound w → sound (setLinks rows w).
Proof.
  intros H (Hcodes & Hids & Hissued).
  destruct (bumped_keys _ _ _ H) as [Hc Hi].
  unfold sound. cbn [setLinks links nextId]. rewrite Hc, Hi.
  split; [exact Hcodes|]. split; [exact Hids|].
  apply incrementRow_bumped in H as (before & l & after & Hw & _ & _ & ->).
  rewrite Hw in Hissued. apply Forall_app in Hissued as [Hb Ha].
  apply Forall_cons in Ha as [Hl Ha].
  apply Forall_app. split; [exact Hb|]. constructor; [exact Hl | exact Ha].
Qed.

Lemma commit_sound (c : Concurrent) (w : World) : sound w → sound (commit c w).
Proof.
  destruct c as [u s e|s]; cbn [commit].
  - destruct (insertRow u s e w) as [[l w']|] eqn:H; [|auto].
    eapply insertRow_sound, H.
  - destruct (incrementRow (ByShortCode s) (links w)) eqn:H; auto.
    eapply bumped_sound, H.
Qed.

Lemma settle_sound (a : Ambient) (w : World) : sound w → sound (settle a w).
Proof.
  unfold settle. intros H.
  assert (Hfold : sound (foldl (λ acc c, commit c acc) w (interference a))).
  { revert w H. induction (interference a) as [|c cs IH]; intros w H; cbn [foldl];
      [exact H | apply IH, commit_sound, H]. }
  exact Hfold.
Qed.

Lemma keeps_ret (P : World → Prop) {A} (a : A) : keeps P (ret a).
Proof. intros w H. exact H. Qed.

Lemma keeps_bind (P : World → Prop) {A B} (m : M A) (k : A → M B) :
  keeps P m → (∀ a, keeps P (k a)) → keeps P (bind m k).
Proof.
  intros Hm Hk w H. unfold bind. specialize (Hm w H).
  destruct (m w) as [[a|x] w1]; cbn [snd] in *; [apply Hk, Hm | exact Hm].
Qed.

Lemma keeps_try (P : World → Prop) {A} (m : M A) (h : Exn → M A) :
  keeps P m → (∀ x, keeps P (h x)) → keeps P (try_catch m h).
Proof.
  intros Hm Hh w H. unfold try_catch. specialize (Hm w H).
  destruct (m w) as [[a|x] w1]; cbn [snd] in *; [exact Hm | apply Hh, Hm].
Qed.

Lemma sound_await (ev : Event) (x : Exn) : keeps sound (await ev x).
Proof.
  intros w H. unfold await.
  destruct (fault (hd calm (ambient w))); cbn [snd];
    apply (settle_sound _ (emit ev w)), H.
Qed.

Lemma sound_now : keeps sound now.
Proof. intros w H. exact H. Qed.

Lemma sound_get_world : keeps sound get_world.
Proof. intros w H. exact H. Qed.

Lemma sound_console_error (msg : string) : keeps sound (console_error msg).
Proof. intros w H. exact H. Qed.

Lemma sound_revalidatePath (path : string) : keeps sound (revalidatePath path).
Proof. intros w H. exact H. Qed.

Lemma sound_generateShortCode : keeps sound generateShortCode.
Proof. intros w H. rewrite generateShortCode_unfold. exact H. Qed.

Lemma sound_findUnique (c : string) : keeps sound (prisma_link_findUnique c).
Proof.
  unfold prisma_link_findUnique.
  apply keeps_bind; [apply sound_await|]. intros _.
  apply keeps_bind; [apply sound_get_world|]. intros w. apply keeps_ret.
Qed.

Lemma sound_findMany : keeps sound prisma_link_findMany.
Proof.
  unfold prisma_link_findMany.
  apply keeps_bind; [apply sound_await|]. intros _.
  apply keeps_bind; [apply sound_get_world|]. intros w. apply keeps_ret.
Qed.

Lemma sound_create (u c : string) (e : option Z) : keeps sound (prisma_link_create u c e).
Proof.
  unfold prisma_link_create.
  apply keeps_bind; [apply sound_await|]. intros _ w H.
  destruct (insertRow u c e w) as [[l w']|] eqn:Hins; cbn [snd]; [|exact H].
  eapply insertRow_sound; eassumption.
Qed.

Lemma sound_update (t : Where) : keeps sound (prisma_link_update t).
Proof.
  unfold prisma_link_update.
  apply keeps_bind; [apply sound_await|]. intros _ w H.
  destruct (incrementRow t (links w)) eqn:Hinc; cbn [snd]; try exact H.
  eapply bumped_sound; eassumption.
Qed.

Lemma sound_redis_get (key : string) : keeps sound (redis_get key).
Proof.
  unfold redis_get.
  apply keeps_bind; [apply sound_await|]. intros _.
  apply keeps_bind; [apply sound_get_world|]. intros w. apply keeps_ret.
Qed.

Lemma sound_redis_set (key value : string) (ex : Z) : keeps sound (redis_set key value ex).
Proof.
  unfold redis_set.
  apply keeps_bind; [apply sound_await|]. intros _ w H.
  destruct (0 <? ex); exact H.
Qed.

Create HintDb sound.
#[local] Hint Resolve keeps_ret sound_await sound_now sound_get_world
  sound_console_error sound_revalidatePath sound_generateShortCode
  sound_findUnique sound_findMany sound_create sound_update
  sound_redis_get sound_redis_set : sound.

Ltac sound_step :=
  match goal with
  | |- keeps sound (bind _ _) => apply keeps_bind; [|intros ?]
  | |- keeps sound (try_catch _ _) => apply keeps_try; [|intros ?]
  | |- keeps sound (match ?x with _ => _ end) => destruct x
  | |- keeps sound _ => solve [auto with sound]
  end.

Lemma sound_uniqueCodeLoop (n : nat) (s : string) : keeps sound (uniqueCodeLoop n s).
Proof.
  revert s. induction n as [|n IH]; intros s; unfold uniqueCodeLoop; fold uniqueCodeLoop.
  - apply keeps_ret.
  - apply keeps_bind; [apply sound_generateShortCode|]. intros c.
    apply keeps_bind; [apply sound_findUnique|]. intros [l|]; [apply IH | apply keeps_ret].
Qed.
#[local] Hint Resolve sound_uniqueCodeLoop : sound.

Lemma sound_createShortLink (v : string → bool) (formUrl : option string) :
  keeps sound (createShortLink v formUrl).
Proof. unfold createShortLink. repeat sound_step. Qed.

Lemma sound_runTask (t : Task) : keeps sound (runTask t).
Proof. unfold runTask. repeat sound_step. Qed.

Lemma sound_runTasks (ts : list Task) : keeps sound (runTasks ts).
Proof.
  induction ts as [|t ts IH]; cbn [runTasks]; [apply keeps_ret|].
  apply keeps_bind; [apply sound_runTask | intros _; exact IH].
Qed.

Lemma sound_GET (code : string) : keeps sound (GET code).
Proof. unfold GET. repeat sound_step. Qed.

Lemma sound_serve (code : string) : keeps sound (serve code).
Proof.
  unfold serve. apply keeps_bind; [apply sound_GET|]. intros [response tasks].
  apply keeps_bind; [apply sound_runTasks|]. intros _. apply keeps_ret.
Qed.

Lemma sound_listing : keeps sound LinksRoute.GET.
Proof. unfold LinksRoute.GET, getRecentLinks. repeat sound_step. Qed.

Lemma sound_direct (code : string) : keeps sound (DirectRoute.GET code).
Proof. unfold DirectRoute.GET. repeat sound_step. Qed.

Lemma sound_seed : keeps sound Seed.main.
Proof. unfold Seed.main. repeat sound_step. Qed.

(** The handlers keep the store's keys as the unique index has them: over
    any sequence of creations, visits, listings and waits, and whatever
    other requests commit meanwhile, a table whose short codes and ids are
    unique stays so. *)
Lemma keys_stay_unique (v : string → bool) (reqs : list Request) (w : World) :
  sound w → sound (foldl (handle v) w reqs).
Proof.
  revert w. induction reqs as [|r reqs IH]; intros w H; cbn [foldl]; [exact H|].
  apply IH. destruct r as [formUrl|code| |d]; cbn [handle].
  - apply sound_createShortLink, H.
  - apply sound_serve, H.
  - apply sound_listing, H.
  - exact H.
Qed.

Lemma keys_stay_unique_witness :
  sound (foldl (handle httpScheme) raceWorld
           [Create (Some "https://example.com/a"); Visit "AbC123"; Wait 10;
            Create (Some "https://example.com/b"); ListRecent]).
Proof.
  apply (keys_stay_unique httpScheme).
  split; [constructor|]. split; constructor.
Defined.

(** ** Undisturbed visits *)

Lemma redis_get_quiet (key : string) (w : World) :
  quiet (hd calm (ambient w)) →
  let w1 := passed (ECacheGet key) w in
  redis_get key w =
    (Ok (match cache w !! key with
         | Some (value, deadline) => if clock w1 <? deadline then Some value else None
         | None => None
         end), w1).
Proof.
  intros Hq. cbv zeta. rewrite redis_get_unfold, (await_quiet _ _ _ Hq). reflexivity.
Qed.

Lemma redis_get_cold (key : string) (w : World) :
  quiet (hd calm (ambient w)) → cold key w →
  redis_get key w = (Ok None, passed (ECacheGet key) w).
Proof.
  intros Hq Hcold. rewrite (redis_get_quiet _ _ Hq). unfold cold in Hcold.
  destruct (cache w !! key) as [[value deadline]|]; [|reflexivity].
  assert ((clock (passed (ECacheGet key) w) <? deadline) = false) as ->; [|reflexivity].
  apply Z.ltb_ge. cbn [passed clock]. lia.
Qed.

Lemma passed_twice_clock (e1 e2 : Event) (w : World) :
  clock (passed e2 (passed e1 w)) = clock w + lookupDelay w.
Proof. unfold lookupDelay. cbn [passed clock ambient]. lia. Qed.

(** The handler on a cold cache, undisturbed: the answer is read off the
    table as it stands. *)
Lemma GET_cold (code : string) (w : World) :
  code ≠ "" → Forall quiet (ambient w) → cold (cacheKey code) w →
  let w2 := passed (EFindUnique code) (passed (ECacheGet (cacheKey code)) w) in
  GET code w =
    match findByCode code (links w) with
    | None => (Ok (Plain 404 "Short link not found", []), w2)
    | Some l =>
        if pastExpiry l (clock w2)
        then (Ok (Plain 410 "This short link has expired.", []), w2)
        else if String.eqb (url l) ""
             then (Ok (NoResponse, [FillAndCount code l (cacheTtl l (clock w2))]), w2)
             else (Ok (Redirect (url l), [FillAndCount code l (cacheTtl l (clock w2))]), w2)
    end.
Proof.
  intros Hne Hq Hcold. cbv zeta. rewrite GET_unfold by exact Hne.
  rewrite redis_get_cold by (try apply hd_quiet; assumption). cbn [truthy].
  rewrite prisma_link_findUnique_quiet
    by (apply hd_quiet, (passed_quiet (ECacheGet (cacheKey code)) w), Hq).
  reflexivity.
Qed.

(** The handler on a live cache entry, undisturbed. *)
Lemma GET_warm (code u : string) (deadline : Z) (w : World) :
  code ≠ "" → u ≠ "" → quiet (hd calm (ambient w)) →
  cache w !! cacheKey code = Some (u, deadline) →
  clock w + Z.of_N (latency (hd calm (ambient w))) < deadline →
  GET code w = (Ok (Redirect u, [CountHit code]), passed (ECacheGet (cacheKey code)) w).
Proof.
  intros Hne Hu Hq Hentry Hlive. apply cache_hit_redirects; [assumption..|].
  rewrite (redis_get_quiet _ _ Hq), Hentry.
  assert ((clock (passed (ECacheGet (cacheKey code)) w) <? deadline) = true) as ->;
    [|reflexivity].
  apply Z.ltb_lt. exact Hlive.
Qed.

Lemma runTask_count_quiet (code : string) (w : World) :
  quiet (hd calm (ambient w)) →
  let w1 := passed (EUpdate (ByShortCode code)) w in
  runTask (CountHit code) w =
    match incrementRow (ByShortCode code) (links w) with
    | Bumped rows => (Ok tt, setLinks rows w1)
    | _ => (Ok tt, emit hitLog w1)
    end.
Proof.
  intros Hq. cbv zeta. unfold runTask, try_catch.
  rewrite prisma_link_update_quiet by exact Hq.
  destruct (incrementRow _ (links w)); reflexivity.
Qed.

Lemma runTask_fill_quiet (code : string) (l : Link) (ttl : Z) (w : World) :
  Forall quiet (ambient w) → 0 < ttl →
  let w1 := passed (ECacheSet (cacheKey code) (url l) ttl) w in
  let w2 := setCache (<[cacheKey code := (url l, clock w1 + 1000 * ttl)]> (cache w)) w1 in
  let w3 := passed (EUpdate (ById (id l))) w2 in
  runTask (FillAndCount code l ttl) w =
    match incrementRow (ById (id l)) (links w) with
    | Bumped rows => (Ok tt, setLinks rows w3)
    | _ => (Ok tt, emit missLog w3)
    end.
Proof.
  intros Hq Httl. cbv zeta. unfold runTask, try_catch.
  erewrite bind_ok by (apply redis_set_quiet; [apply hd_quiet, Hq | exact Httl]).
  rewrite prisma_link_update_quiet
    by (apply hd_quiet, (passed_quiet (ECacheSet (cacheKey code) (url l) ttl) w), Hq).
  cbn [setCache links passed].
  destruct (incrementRow _ (links w)); reflexivity.
Qed.

Lemma cacheTtl_pos (l : Link) (t : Z) : 0 < cacheTtl l t.
Proof. unfold cacheTtl. destruct (expiresAt l); lia. Qed.

(** ** Creation and the visits that follow *)

(** The row behind a [{ success: true, link }] result is the last row of
    the table, and no earlier row carries its code. *)
Lemma createShortLink_success_row (v : string → bool) (formUrl : option string)
    (w w1 : World) (l : Link) :
  createShortLink v formUrl w = (Ok (succeeded l), w1) →
  ∃ rows, links w1 = (rows ++ [l])%list ∧
          findByCode (shortCode l) rows = None ∧
          clicks l = 0 ∧ formUrl = Some (url l) ∧ url l ≠ "" ∧ shortCode l ≠ "".
Proof.
  intros Hrun.
  destruct (createShortLink_success_inv v formUrl w w1 _ Hrun eq_refl)
    as (l0 & code & w0 & Hl & Hform & Hv & _ & Hlen & _ & Hclicks & _).
  injection Hl as <-.
  assert (Hurl : url l ≠ "").
  { intros E. rewrite Hform, E in Hrun. discriminate Hrun. }
  assert (Hcode : shortCode l ≠ "") by (intros E; rewrite E in Hlen; discriminate).
  rewrite Hform in Hrun. rewrite createShortLink_valid in Hrun by assumption.
  destruct (uniqueCodeLoop 5 "" w) as [[[c [|]]|x] w2]; [|discriminate..].
  rewrite prisma_link_create_unfold in Hrun.
  destruct (await _ _ w2) as [[[]|x] w3]; [|discriminate].
  destruct (insertRow (url l) c _ w3) as [[l1 w4]|] eqn:Hins; [|discriminate].
  unfold succeeded in Hrun.
  assert (l1 = l) as -> by congruence.
  assert (w1 = emit (ERevalidate "/") w4) as -> by congruence.
  apply insertRow_inv in Hins as (Hfree & Hl & Hlinks & _).
  exists (links w3). cbn [emit links].
  assert (Hc : shortCode l = c) by (rewrite Hl; reflexivity).
  rewrite Hc in *. split; [exact Hlinks|]. split; [exact Hfree|].
  split; [exact Hclicks|]. split; [exact Hform|]. split; assumption.
Qed.

(** X2: a link that [createShortLink] has just returned resolves: on a
    cold cache and before the link expires, an undisturbed visit to its
    short code redirects to the very url that was submitted, takes the
    row's counter from 0 to 1 and leaves the url in the cache. *)
Theorem created_link_resolves (v : string → bool) (formUrl : option string)
    (w w1 : World) (l : Link) (d : N) :
  sound w →
  createShortLink v formUrl w = (Ok (succeeded l), w1) →
  Forall quiet (ambient w1) → cold (cacheKey (shortCode l)) w1 →
  pastExpiry l (clock w1 + Z.of_N d + lookupDelay w1) = false →
  ∃ rows w3 deadline,
    formUrl = Some (url l) ∧
    links w1 = (rows ++ [l])%list ∧
    serve (shortCode l) (elapse d w1) = (Ok (Redirect (url l)), w3) ∧
    links w3 = (rows ++ [bump l])%list ∧ clicks (bump l) = 1 ∧
    cache w3 !! cacheKey (shortCode l) = Some (url l, deadline).
Proof.
  intros Hsound Hrun Hq Hcold Hlive.
  pose proof (sound_createShortLink v formUrl w Hsound) as Hsound1.
  rewrite Hrun in Hsound1. cbn [snd] in Hsound1.
  destruct (createShortLink_success_row _ _ _ _ _ Hrun)
    as (rows & Hrows & Hfree & Hclicks & Hform & Hurl & Hcode).
  set (w2 := elapse d w1).
  assert (Hq2 : Forall quiet (ambient w2)) by exact Hq.
  assert (Hcold2 : cold (cacheKey (shortCode l)) w2).
  { unfold cold in *. cbn [w2 elapse cache clock].
    destruct (cache w1 !! cacheKey (shortCode l)) as [[value dl]|]; [lia | exact I]. }
  assert (Hfind : findByCode (shortCode l) (links w2) = Some l).
  { cbn [w2 elapse links]. rewrite Hrows, findByCode_app by exact Hfree.
    apply findByCode_here. reflexivity. }
  pose proof (GET_cold (shortCode l) w2 Hcode Hq2 Hcold2) as Hget.
  cbv zeta in Hget. rewrite Hfind, passed_twice_clock in Hget.
  change (clock w2) with (clock w1 + Z.of_N d) in Hget.
  change (lookupDelay w2) with (lookupDelay w1) in Hget.
  rewrite Hlive in Hget.
  destruct (String.eqb (url l) "") eqn:E; [apply String.eqb_eq in E; contradiction|].
  set (w3 := passed _ (passed _ w2)) in Hget.
  set (ttl := cacheTtl l _) in Hget.
  assert (Hq3 : Forall quiet (ambient w3)) by (apply passed_quiet, passed_quiet, Hq2).
  pose proof (runTask_fill_quiet (shortCode l) l ttl w3 Hq3 (cacheTtl_pos _ _)) as Htask.
  cbv zeta in Htask.
  assert (Hinc : incrementRow (ById (id l)) (links w3) = Bumped (rows ++ [bump l])).
  { change (links w3) with (links w1). rewrite Hrows.
    rewrite incrementRow_by_id.
    - rewrite Hclicks. reflexivity.
    - rewrite <- Hrows. apply Hsound1. }
  rewrite Hinc in Htask.
  eexists rows, _, _. split; [exact Hform|]. split; [exact Hrows|]. split.
  - rewrite serve_unfold, Hget, runTasks_one, Htask. reflexivity.
  - cbn [setLinks links cache passed setCache]. split; [reflexivity|].
    split; [cbn [bump clicks]; lia|]. apply lookup_insert_eq.
Qed.

Lemma created_link_resolves_witness :
  ∃ rows w3,
    serve "XyZ789"
      (elapse 60000
         (snd (createShortLink httpScheme (Some "https://example.com/a") retryWorld)))
      = (Ok (Redirect "https://example.com/a"), w3) ∧
    links w3 =
      (rows ++ [mkLink 1 "https://example.com/a" "XyZ789" 1009 (Some 604801005) 1])%list.
Proof.
  destruct (created_link_resolves httpScheme (Some "https://example.com/a") retryWorld
              (snd (createShortLink httpScheme (Some "https://example.com/a") retryWorld))
              (mkLink 1 "https://example.com/a" "XyZ789" 1009 (Some 604801005) 0)
              60000
              ltac:(vm_compute; repeat constructor; try (intros H; inversion H; fail);
                    set_solver)
              ltac:(vm_compute; reflexivity)
              ltac:(vm_compute; constructor)
              ltac:(vm_compute; exact I)
              ltac:(vm_compute; reflexivity))
    as (rows & w3 & deadline & _ & _ & Hserve & Hlinks & _).
  exists rows, w3. split; [exact Hserve | exact Hlinks].
Defined.

(** ** What a visit reads and writes *)

(** X3: a visit that finds a live cache entry whose text is not JSON, so
    that the client hands it back as written, is answered from it alone:
    undisturbed, it redirects to the cached url, never reads the table, and
    its only call to the store is the deferred click update, addressed by
    short code; the cache is left as it was. *)
Theorem cached_visit_skips_store (code u : string) (deadline : Z) (w : World) :
  code ≠ "" → u ≠ "" → plainText u = true → Forall quiet (ambient w) →
  cache w !! cacheKey code = Some (u, deadline) →
  clock w + Z.of_N (latency (hd calm (ambient w))) < deadline →
  ∃ w' rest,
    serve code w = (Ok (Redirect u), w') ∧
    trace w' = (trace w ++ [ECacheGet (cacheKey code); EUpdate (ByShortCode code)]
                ++ rest)%list ∧
    (rest = [] ∨ rest = [hitLog]) ∧
    cache w' = cache w.
Proof.
  intros Hne Hu _ Hq Hentry Hlive.
  rewrite serve_unfold, (GET_warm code u deadline w Hne Hu (hd_quiet _ Hq) Hentry Hlive).
  rewrite runTasks_one, runTask_count_quiet
    by (apply hd_quiet, (passed_quiet (ECacheGet (cacheKey code)) w), Hq).
  cbn [passed links].
  destruct (incrementRow (ByShortCode code) (links w)).
  - eexists _, []. split; [reflexivity|]. cbn [setLinks trace cache passed].
    rewrite <- app_assoc. auto.
  - eexists _, [hitLog]. split; [reflexivity|]. cbn [emit trace cache passed].
    rewrite <- !app_assoc. auto.
  - eexists _, [hitLog]. split; [reflexivity|]. cbn [emit trace cache passed].
    rewrite <- !app_assoc. auto.
Qed.

Lemma cached_visit_skips_store_witness :
  ∃ w' rest,
    serve "AbC123" warmWorld = (Ok (Redirect "https://example.com/a"), w') ∧
    trace w' = (trace warmWorld ++
                [ECacheGet (cacheKey "AbC123"); EUpdate (ByShortCode "AbC123")]
                ++ rest)%list ∧
    (rest = [] ∨ rest = [hitLog]) ∧
    cache w' = cache warmWorld.
Proof.
  apply (cached_visit_skips_store "AbC123" "https://example.com/a" 5000 warmWorld).
  - discriminate.
  - discriminate.
  - reflexivity.
  - constructor.
  - vm_compute. reflexivity.
  - vm_compute. reflexivity.
Defined.

(** X4: every redirect is counted exactly once.  When an undisturbed
    visit to a code whose row is in a table with unique keys, below the
    counter's ceiling and with an [expiresAt] that a [Date] can hold, is
    answered with a redirect -- from the cache or from the store -- the
    deferred work adds one to that row and changes no other row. *)
Theorem every_redirect_counts_once (code u : string) (w w' : World) (l : Link) :
  sound w → Forall quiet (ambient w) →
  findByCode code (links w) = Some l → clicks l < int4_max → datable l →
  serve code w = (Ok (Redirect u), w') →
  ∃ before after,
    links w = (before ++ l :: after)%list ∧
    links w' = (before ++ bump l :: after)%list ∧
    findByCode code (links w') = Some (bump l).
Proof.
  intros Hsound Hq Hfind Hroom _ Hserve.
  destruct (findByCode_split _ _ _ Hfind) as (before & after & Hrows & Hbefore & Hcode).
  exists before, after. split; [exact Hrows|].
  assert (Hfound : ∀ rows, rows = (before ++ bump l :: after)%list →
                           findByCode code rows = Some (bump l)).
  { intros rows ->. rewrite findByCode_app by exact Hbefore.
    apply findByCode_here. exact Hcode. }
  apply Z.ltb_lt in Hroom.
  destruct (decide (code = "")) as [->|Hne]; [discriminate|].
  rewrite serve_unfold, GET_unfold in Hserve by exact Hne.
  rewrite (redis_get_quiet _ _ (hd_quiet _ Hq)) in Hserve.
  set (w1 := passed (ECacheGet (cacheKey code)) w) in Hserve.
  assert (Hq1 : Forall quiet (ambient w1)) by (apply passed_quiet, Hq).
  destruct (truthy _) eqn:Hhit.
  - rewrite runTasks_one, runTask_count_quiet in Hserve by (apply hd_quiet, Hq1).
    change (links w1) with (links w) in Hserve.
    rewrite Hrows, (incrementRow_by_code code before after l Hbefore Hcode), Hroom in Hserve.
    assert (w' = setLinks (before ++ bump l :: after)
                          (passed (EUpdate (ByShortCode code)) w1)) as -> by congruence.
    cbn [setLinks links]. auto.
  - rewrite prisma_link_findUnique_quiet in Hserve by (apply hd_quiet, Hq1).
    change (links w1) with (links w) in Hserve. rewrite Hfind in Hserve.
    set (w2 := passed (EFindUnique code) w1) in Hserve.
    destruct (pastExpiry l (clock w2)); [discriminate|].
    assert (Hq2 : Forall quiet (ambient w2)) by (apply passed_quiet, Hq1).
    destruct (String.eqb (url l) ""); [rewrite runTasks_one in Hserve;
      destruct (runTask _ w2) as [[[]|x] w3]; discriminate|].
    rewrite runTasks_one, runTask_fill_quiet in Hserve
      by (first [exact Hq2 | apply cacheTtl_pos]).
    cbn [passed setCache links] in Hserve.
    change (links w2) with (links w) in Hserve.
    rewrite Hrows, incrementRow_by_id, Hroom in Hserve
      by (rewrite <- Hrows; apply Hsound).
    cbv beta iota in Hserve.
    match type of Hserve with
    | (_, ?x) = _ => assert (w' = x) as -> by congruence
    end.
    cbn [setLinks links]. auto.
Qed.

Lemma every_redirect_counts_once_witness :
  ∃ before after,
    links lastSecondWorld
      = (before ++ mkLink 0 "https://example.com/soon" "soon01" 0 (Some 1200) 0 :: after)%list ∧
    links (snd (serve "soon01" lastSecondWorld))
      = (before ++ bump (mkLink 0 "https://example.com/soon" "soon01" 0 (Some 1200) 0)
           :: after)%list ∧
    findByCode "soon01" (links (snd (serve "soon01" lastSecondWorld)))
      = Some (bump (mkLink 0 "https://example.com/soon" "soon01" 0 (Some 1200) 0)).
Proof.
  apply (every_redirect_counts_once "soon01" "https://example.com/soon" lastSecondWorld).
  - vm_compute. repeat constructor; set_solver.
  - constructor.
  - reflexivity.
  - reflexivity.
  - reflexivity.
  - vm_compute. reflexivity.
Defined.

Lemma redis_get_frame (key : string) (w : World) :
  trace (redis_get key w).2 = (trace w ++ [ECacheGet key])%list ∧
  cache (redis_get key w).2 = cache w.
Proof.
  rewrite redis_get_unfold.
  pose proof (await_trace (ECacheGet key) CacheError w) as Ht.
  pose proof (await_cache (ECacheGet key) CacheError w) as Hc.
  destruct (await _ _ w) as [[[]|x] w1]; auto.
Qed.

Lemma prisma_link_findUnique_cache (c : string) (w : World) :
  cache (prisma_link_findUnique c w).2 = cache w.
Proof.
  rewrite prisma_link_findUnique_unfold.
  pose proof (await_cache (EFindUnique c) StoreError w) as Hc.
  destruct (await _ _ w) as [[[]|x] w1]; exact Hc.
Qed.

(** X5: the handler settles every answer with reads alone.  Whatever the
    surroundings do, [GET] issues nothing but the cache lookup, the store
    lookup and log lines, and leaves the cache untouched; all writing is
    left to the deferred work, and a visit answered with a status code has
    no deferred work at all. *)
Theorem answer_needs_no_write (code : string) (w : World) :
  ∃ response tasks w' evs,
    GET code w = (Ok (response, tasks), w') ∧
    trace w' = (trace w ++ evs)%list ∧ forallb readOnly evs = true ∧
    cache w' = cache w ∧
    (∀ status body, response = Plain status body →
                    serve code w = (Ok response, w')).
Proof.
  destruct (decide (code = "")) as [->|Hne].
  { exists (Plain 404 "Not Found"), [], w, []. rewrite app_nil_r. repeat split. }
  assert (Hserve : ∀ r w0, GET code w = (Ok (r, []), w0) → serve code w = (Ok r, w0)).
  { intros r w0 H. rewrite serve_unfold, H. reflexivity. }
  revert Hserve. rewrite GET_unfold by exact Hne. intros Hserve.
  destruct (redis_get_frame (cacheKey code) w) as [Ht1 Hc1].
  destruct (redis_get (cacheKey code) w) as [[cached|x] w1]; cbn [snd] in Ht1, Hc1.
  - destruct (truthy cached).
    + eexists _, _, _, [_]. split; [reflexivity|]. split; [exact Ht1|].
      split; [reflexivity|]. split; [exact Hc1 | discriminate].
    + pose proof (prisma_link_findUnique_trace code w1) as Ht2.
      pose proof (prisma_link_findUnique_cache code w1) as Hc2.
      destruct (prisma_link_findUnique code w1) as [[[l|]|x] w2]; cbn [snd] in Ht2, Hc2.
      * assert (Htrace : trace w2 = (trace w ++ [ECacheGet (cacheKey code);
                                                 EFindUnique code])%list)
          by (rewrite Ht2, Ht1, <- app_assoc; reflexivity).
        destruct (pastExpiry l (clock w2)).
        -- eexists _, _, _, _. split; [reflexivity|]. split; [exact Htrace|].
           split; [reflexivity|]. split; [congruence|].
           intros status body _. apply Hserve. reflexivity.
        -- destruct (String.eqb (url l) "");
             (eexists _, _, _, _; split; [reflexivity|]; split; [exact Htrace|];
              split; [reflexivity|]; split; [congruence | discriminate]).
      * eexists _, _, _, [_; _]. split; [reflexivity|]. split.
        { rewrite Ht2, Ht1, <- app_assoc. reflexivity. }
        split; [reflexivity|]. split; [congruence|].
        intros status body _. apply Hserve. reflexivity.
      * eexists _, _, _, [_; _; _]. split; [reflexivity|]. split.
        { unfold internalError, emit. cbn [snd trace].
          rewrite Ht2, Ht1, <- !app_assoc. reflexivity. }
        split; [reflexivity|]. split; [unfold emit; cbn [cache]; congruence|].
        intros status body _. apply Hserve. reflexivity.
  - eexists _, _, _, [_; _]. split; [reflexivity|]. split.
    { unfold internalError, emit. cbn [snd trace]. rewrite Ht1, <- !app_assoc. reflexivity. }
    split; [reflexivity|]. split; [unfold emit; cbn [cache]; congruence|].
    intros status body _. apply Hserve. reflexivity.
Qed.

(** ** Two visits in a row *)

Lemma passed_calm (ev : Event) (w : World) :
  ambient w = [] →
  passed ev w = mkWorld (links w) (nextId w) (cache w) (clock w) (random w) []
                        (trace w ++ [ev]) (zone w).
Proof. intros H. unfold passed. rewrite H. cbn [hd tl latency calm]. f_equal. lia. Qed.

(** An undisturbed first visit to a valid link, step by step. *)
Lemma serve_cold (code : string) (w : World) (before after : list Link) (l : Link) :
  code ≠ "" → sound w → Forall quiet (ambient w) → cold (cacheKey code) w →
  links w = (before ++ l :: after)%list → findByCode code before = None →
  shortCode l = code → url l ≠ "" → clicks l < int4_max →
  let w2 := passed (EFindUnique code) (passed (ECacheGet (cacheKey code)) w) in
  let ttl := cacheTtl l (clock w2) in
  let w3 := passed (ECacheSet (cacheKey code) (url l) ttl) w2 in
  let w4 := setCache (<[cacheKey code := (url l, clock w3 + 1000 * ttl)]> (cache w)) w3 in
  pastExpiry l (clock w2) = false →
  serve code w =
    (Ok (Redirect (url l)),
     setLinks (before ++ bump l :: after) (passed (EUpdate (ById (id l))) w4)).
Proof.
  intros Hne Hsound Hq Hcold Hrows Hbefore Hcode Hurl Hroom. cbv zeta. intros Hlive.
  assert (Hfind : findByCode code (links w) = Some l).
  { rewrite Hrows, findByCode_app by exact Hbefore. apply findByCode_here, Hcode. }
  rewrite serve_unfold, (GET_cold code w Hne Hq Hcold). cbv zeta.
  rewrite Hfind, Hlive.
  destruct (String.eqb (url l) "") eqn:E; [apply String.eqb_eq in E; contradiction|].
  rewrite runTasks_one, runTask_fill_quiet
    by (first [apply passed_quiet, passed_quiet, Hq | apply cacheTtl_pos]).
  cbn [passed links].
  rewrite Hrows, incrementRow_by_id by (rewrite <- Hrows; apply Hsound).
  apply Z.ltb_lt in Hroom. rewrite Hroom. reflexivity.
Qed.

(** An undisturbed visit served from the cache, step by step. *)
Lemma serve_warm (code u : string) (deadline : Z) (w : World)
    (before after : list Link) (l : Link) :
  code ≠ "" → u ≠ "" → Forall quiet (ambient w) →
  cache w !! cacheKey code = Some (u, deadline) →
  clock w + Z.of_N (latency (hd calm (ambient w))) < deadline →
  links w = (before ++ l :: after)%list → findByCode code before = None →
  shortCode l = code → clicks l < int4_max →
  serve code w =
    (Ok (Redirect u),
     setLinks (before ++ bump l :: after)
              (passed (EUpdate (ByShortCode code)) (passed (ECacheGet (cacheKey code)) w))).
Proof.
  intros Hne Hu Hq Hentry Hlive Hrows Hbefore Hcode Hroom.
  rewrite serve_unfold, (GET_warm code u deadline w Hne Hu (hd_quiet _ Hq) Hentry Hlive).
  rewrite runTasks_one, runTask_count_quiet
    by (apply hd_quiet, (passed_quiet (ECacheGet (cacheKey code)) w), Hq).
  cbn [passed links].
  rewrite Hrows, (incrementRow_by_code code before after l Hbefore Hcode).
  apply Z.ltb_lt in Hroom. rewrite Hroom. reflexivity.
Qed.

(** X6: two visits in a row to a link that stays valid throughout, in a
    world where nothing else happens and no call takes time.  The link's
    url is not JSON text and its [expiresAt] is an instant a [Date] can
    hold and is not yet past at the second visit.  The first visit, on a
    cold cache, reads the store and fills the cache; the second, less than
    a second later, is answered from the cache without reading the store.
    Both redirect to the stored url and the counter ends two higher. *)
Theorem second_visit_is_served_from_cache (code : string) (w : World) (l : Link) (d : N) :
  code ≠ "" → sound w → ambient w = [] → cold (cacheKey code) w →
  findByCode code (links w) = Some l → url l ≠ "" →
  plainText (url l) = true → datable l →
  pastExpiry l (clock w + Z.of_N d) = false →
  clicks l + 1 < int4_max → Z.of_N d < 1000 →
  ∃ w1 w2,
    serve code w = (Ok (Redirect (url l)), w1) ∧
    serve code (elapse d w1) = (Ok (Redirect (url l)), w2) ∧
    trace w2 = (trace w ++
                [ECacheGet (cacheKey code); EFindUnique code;
                 ECacheSet (cacheKey code) (url l) (cacheTtl l (clock w));
                 EUpdate (ById (id l));
                 ECacheGet (cacheKey code); EUpdate (ByShortCode code)])%list ∧
    findByCode code (links w2) = Some (bump (bump l)).
Proof.
  intros Hne Hsound Hcalm Hcold Hfind Hurl _ _ Hlater Hroom Hd.
  assert (Hlive : pastExpiry l (clock w) = false).
  { unfold pastExpiry in *. destruct (expiresAt l) as [e|]; [|reflexivity].
    apply Z.ltb_ge in Hlater. apply Z.ltb_ge. lia. }
  destruct (findByCode_split _ _ _ Hfind) as (before & after & Hrows & Hbefore & Hcode).
  assert (Hq : Forall quiet (ambient w)) by (rewrite Hcalm; constructor).
  pose proof (serve_cold code w before after l Hne Hsound Hq Hcold Hrows Hbefore
                Hcode Hurl ltac:(lia)) as Hfirst.
  cbv zeta in Hfirst.
  rewrite !passed_calm in Hfirst
    by (cbn [passed ambient setCache]; rewrite ?Hcalm; reflexivity).
  cbn [clock cache links nextId random trace setCache setLinks] in Hfirst.
  specialize (Hfirst Hlive).
  eexists _, _. split; [exact Hfirst|].
  set (ttl := cacheTtl l (clock w)).
  pose proof (cacheTtl_pos l (clock w)) as Hpos. fold ttl in Hpos.
  split.
  - erewrite (serve_warm code (url l) (clock w + 1000 * ttl) _ before after (bump l)).
    + reflexivity.
    + exact Hne.
    + exact Hurl.
    + constructor.
    + cbn [elapse cache setLinks]. apply lookup_insert_eq.
    + cbn [elapse clock ambient hd latency calm setLinks]. lia.
    + reflexivity.
    + exact Hbefore.
    + exact Hcode.
    + cbn [bump clicks]. lia.
  - split.
    + rewrite !passed_calm by reflexivity. cbn [setLinks trace elapse].
      rewrite <- !app_assoc. reflexivity.
    + cbn [setLinks links]. rewrite findByCode_app by exact Hbefore.
      apply findByCode_here. exact Hcode.
Qed.

Lemma second_visit_is_served_from_cache_witness :
  ∃ w1 w2,
    serve "AbC123" sampleWorld = (Ok (Redirect "https://example.com/a"), w1) ∧
    serve "AbC123" (elapse 500 w1) = (Ok (Redirect "https://example.com/a"), w2) ∧
    findByCode "AbC123" (links w2)
      = Some (mkLink 0 "https://example.com/a" "AbC123" 500 (Some 604800500) 2).
Proof.
  destruct (second_visit_is_served_from_cache "AbC123" sampleWorld sampleLink 500
              ltac:(discriminate)
              ltac:(vm_compute; repeat constructor; set_solver)
              eq_refl
              ltac:(vm_compute; exact I)
              eq_refl
              ltac:(discriminate)
              eq_refl
              eq_refl
              ltac:(vm_compute; reflexivity)
              ltac:(vm_compute; reflexivity)
              ltac:(vm_compute; reflexivity))
    as (w1 & w2 & H1 & H2 & _ & H3).
  exists w1, w2. split; [exact H1|]. split; [exact H2 | exact H3].
Defined.

(** ** Failures of the deferred work, and the visit without an answer *)

Lemma runTask_returns (t : Task) (w : World) : ∃ w', runTask t w = (Ok tt, w').
Proof.
  destruct t as [code|code l ttl]; unfold runTask, try_catch.
  - destruct (prisma_link_update _ w) as [[[]|x] w1]; eexists; reflexivity.
  - destruct (bind _ _ w) as [[[]|x] w1]; eexists; reflexivity.
Qed.

(** X7: no failure of the deferred work reaches the visitor.  Whatever
    fails in the cache write or in the click update, the closure handed to
    [after] ends normally, and the answer of a visit is the one [GET] had
    settled before any of it ran. *)
Theorem deferred_failures_stay_inside (code : string) (w : World) :
  (∀ t w0, ∃ w1, runTask t w0 = (Ok tt, w1)) ∧
  ∃ response tasks w0 w',
    GET code w = (Ok (response, tasks), w0) ∧
    serve code w = (Ok response, w').
Proof.
  split; [apply runTask_returns|].
  destruct (GET_total code w) as (response & tasks & w0 & Hget & _).
  rewrite serve_unfold, Hget.
  assert (Hts : ∀ ts w1, ∃ w2, runTasks ts w1 = (Ok tt, w2)).
  { induction ts as [|t ts IH]; intros w1; cbn [runTasks]; [eexists; reflexivity|].
    destruct (runTask_returns t w1) as [w2 Ht]. unfold bind. rewrite Ht. apply IH. }
  destruct (Hts tasks w0) as [w' Hrun]. rewrite Hrun.
  exists response, tasks, w0, w'. split; reflexivity.
Qed.

Lemma prisma_link_findUnique_result (c : string) (w w' : World) (r : option Link) :
  prisma_link_findUnique c w = (Ok r, w') → r = findByCode c (links w').
Proof.
  rewrite prisma_link_findUnique_unfold.
  destruct (await _ _ w) as [[[]|x] w1]; [|discriminate]. congruence.
Qed.

(** X8: the handler leaves a visit without any response in one case
    only: the store holds, under that code, an unexpired row whose url is
    the empty string.  (A cached empty string counts as a miss.)  The
    deferred work is scheduled all the same. *)
Theorem no_response_only_for_empty_url (code : string) (w w' : World) (tasks : list Task) :
  GET code w = (Ok (NoResponse, tasks), w') →
  ∃ l, findByCode code (links w') = Some l ∧ url l = "" ∧
       pastExpiry l (clock w') = false ∧
       tasks = [FillAndCount code l (cacheTtl l (clock w'))].
Proof.
  destruct (decide (code = "")) as [->|Hne]; [discriminate|].
  rewrite GET_unfold by exact Hne. unfold internalError.
  destruct (redis_get _ w) as [[cached|x] w1]; [|discriminate].
  destruct (truthy cached); [discriminate|].
  destruct (prisma_link_findUnique code w1) as [[[l|]|x] w2] eqn:Hfind; try discriminate.
  apply prisma_link_findUnique_result in Hfind.
  destruct (pastExpiry l (clock w2)) eqn:Hexp; [discriminate|].
  destruct (String.eqb (url l) "") eqn:E; [|discriminate].
  intros H. assert (w' = w2) as -> by congruence.
  assert (tasks = [FillAndCount code l (cacheTtl l (clock w2))]) as -> by congruence.
  apply String.eqb_eq in E. exists l. auto.
Qed.

Lemma no_response_only_for_empty_url_witness :
  ∃ l, findByCode "blank1" (links (snd (GET "blank1" blankWorld))) = Some l ∧
       url l = "" ∧
       pastExpiry l (clock (snd (GET "blank1" blankWorld))) = false ∧
       [FillAndCount "blank1" (mkLink 0 "" "blank1" 0 None 0) 604800]
         = [FillAndCount "blank1" l (cacheTtl l (clock (snd (GET "blank1" blankWorld))))].
Proof.
  apply (no_response_only_for_empty_url "blank1" blankWorld).
  vm_compute. reflexivity.
Defined.

(** ** Creation and the table *)

Lemma attempts_frame (k : nat) (w : World) :
  nextId (attempts k w) = nextId w ∧ cache (attempts k w) = cache w.
Proof.
  revert w. induction k as [|k IH]; intros w; cbn [attempts]; [auto|].
  destruct (IH (attempt w)) as [-> ->]. auto.
Qed.

(** Undisturbed, the loop ends after some rounds with the table as it
    was, and a code it declares unique is not in the table. *)
Lemma uniqueCodeLoop_quiet (n : nat) (s : string) (w : World) :
  Forall quiet (ambient w) →
  ∃ k c b, uniqueCodeLoop n s w = (Ok (c, b), attempts k w) ∧
           (b = true → findByCode c (links w) = None).
Proof.
  revert s w. induction n as [|n IH]; intros s w Hq.
  - exists 0%nat, s, false. split; [reflexivity | discriminate].
  - rewrite uniqueCodeLoop_step by (apply hd_quiet, Hq).
    destruct (findByCode _ (links w)) eqn:Hfree.
    + destruct (IH (fst (drawChars 6 (random w))) (attempt w) (attempt_quiet _ Hq))
        as (k & c & b & Hrun & Hb).
      exists (S k), c, b. split; [exact Hrun|]. rewrite attempt_links in Hb. exact Hb.
    + exists 1%nat, (fst (drawChars 6 (random w))), true. split; [reflexivity|]. auto.
Qed.

(** X9: what a creation does to the table.  Undisturbed, the action
    either fails and leaves the table and the id counter as they were, or
    succeeds and appends exactly the returned row, whose code no earlier
    row carries and whose url is the one submitted; the cache is never
    touched. *)
Theorem creation_adds_one_row_or_none (v : string → bool) (formUrl : option string)
    (w : World) :
  Forall quiet (ambient w) →
  ∃ r w', createShortLink v formUrl w = (Ok r, w') ∧ cache w' = cache w ∧
    ((∃ msg, r = failed msg ∧ links w' = links w ∧ nextId w' = nextId w) ∨
     (∃ l, r = succeeded l ∧ links w' = (links w ++ [l])%list ∧
           findByCode (shortCode l) (links w) = None ∧
           formUrl = Some (url l) ∧ id l = nextId w)).
Proof.
  intros Hq.
  destruct formUrl as [u|]; [|eexists _, _; split; [reflexivity|]; split; [reflexivity|];
                               left; eauto].
  destruct (decide (u = "")) as [->|Hne];
    [eexists _, _; split; [reflexivity|]; split; [reflexivity|]; left; eauto|].
  destruct (v u) eqn:Hv.
  2:{ unfold createShortLink. destruct u; [congruence|]. rewrite Hv.
      eexists _, _; split; [reflexivity|]; split; [reflexivity|]; left; eauto. }
  rewrite createShortLink_valid by assumption.
  destruct (uniqueCodeLoop_quiet 5 "" w Hq) as (k & c & b & Hloop & Hb).
  rewrite Hloop.
  destruct (attempts_frame k w) as [Hid Hcache].
  destruct b.
  - rewrite prisma_link_create_quiet.
    + eexists _, _. split; [reflexivity|]. cbn [emit cache links passed].
      split; [exact Hcache|]. right. eexists. split; [reflexivity|].
      cbn [shortCode url id]. rewrite attempts_links.
      split; [reflexivity|]. split; [apply Hb; reflexivity|]. split; [reflexivity | exact Hid].
    + apply hd_quiet, attempts_quiet, Hq.
    + rewrite attempts_links. apply Hb. reflexivity.
  - eexists _, _. split; [reflexivity|]. split; [exact Hcache|]. left.
    eexists. split; [reflexivity|]. split; [apply attempts_links | exact Hid].
Qed.

Lemma creation_adds_one_row_or_none_witness :
  ∃ r w', createShortLink httpScheme (Some "https://example.com/a") retryWorld = (Ok r, w') ∧
    cache w' = cache retryWorld ∧
    ((∃ msg, r = failed msg ∧ links w' = links retryWorld ∧ nextId w' = nextId retryWorld) ∨
     (∃ l, r = succeeded l ∧ links w' = (links retryWorld ++ [l])%list ∧
           findByCode (shortCode l) (links retryWorld) = None ∧
           Some "https://example.com/a" = Some (url l) ∧ id l = nextId retryWorld)).
Proof.
  apply (creation_adds_one_row_or_none httpScheme (Some "https://example.com/a") retryWorld).
  repeat constructor.
Defined.

(** ** The listing *)

Lemma insertDesc_perm (l : Link) (rows : list Link) :
  Permutation (l :: rows) (insertDesc l rows).
Proof.
  induction rows as [|x rows IH]; cbn [insertDesc]; [reflexivity|].
  destruct (createdAt x <? createdAt l); [reflexivity|].
  etransitivity; [apply perm_swap|]. apply perm_skip, IH.
Qed.

Lemma insertDesc_sorted (l : Link) (rows : list Link) :
  StronglySorted newerFirst rows → StronglySorted newerFirst (insertDesc l rows).
Proof.
  induction rows as [|x rows IH]; cbn [insertDesc]; intros Hs.
  - repeat constructor.
  - apply StronglySorted_cons in Hs as [Hx Hs].
    destruct (createdAt x <? createdAt l) eqn:E.
    + apply Z.ltb_lt in E. constructor; [constructor; assumption|].
      constructor; [unfold newerFirst; lia|].
      eapply Forall_impl; [exact Hx|]. unfold newerFirst. intros y Hy. lia.
    + apply Z.ltb_ge in E. constructor; [apply IH, Hs|].
      rewrite <- (insertDesc_perm l rows). constructor; [exact E | exact Hx].
Qed.

Lemma newestFirst_perm (rows : list Link) : Permutation rows (newestFirst rows).
Proof.
  unfold newestFirst. induction rows as [|l rows IH]; cbn [foldr]; [reflexivity|].
  etransitivity; [apply perm_skip, IH | apply insertDesc_perm].
Qed.

Lemma newestFirst_sorted (rows : list Link) : StronglySorted newerFirst (newestFirst rows).
Proof.
  unfold newestFirst. induction rows as [|l rows IH]; cbn [foldr]; [constructor|].
  apply insertDesc_sorted, IH.
Qed.

(** X10: the listing shows the newest rows.  [getRecentLinks] returns at
    most ten rows, newest first; when the store call goes through they are
    rows of the table as it then stands, every row left out is at least as
    old as every row shown, and rows are left out only when ten are shown.
    The call changes neither the cache nor, other requests aside, the
    table. *)
Theorem listing_shows_the_newest (w : World) :
  ∃ found w',
    getRecentLinks w = (Ok found, w') ∧
    (length found ≤ 10)%nat ∧ StronglySorted newerFirst found ∧
    cache w' = cache w ∧
    (interference (hd calm (ambient w)) = [] → links w' = links w) ∧
    (fault (hd calm (ambient w)) = false →
     ∃ rest, Permutation (links w') (found ++ rest) ∧
             (rest ≠ [] → length found = 10%nat) ∧
             ∀ x y, x ∈ found → y ∈ rest → createdAt y ≤ createdAt x).
Proof.
  unfold getRecentLinks, try_catch, prisma_link_findMany, bind at 1.
  pose proof (await_cache EFindMany StoreError w) as Hcache.
  unfold await in *. set (w1 := settle _ _) in *.
  assert (Hlinks : interference (hd calm (ambient w)) = [] → links w1 = links w).
  { intros Hi. subst w1. rewrite settle_links_alone by exact Hi. reflexivity. }
  destruct (fault (hd calm (ambient w))); cbn [snd] in Hcache.
  - exists [], (emit (EConsoleError "Failed to fetch recent links:") w1).
    split; [reflexivity|]. split; [cbn; lia|]. split; [constructor|].
    split; [exact Hcache|]. split; [exact Hlinks | discriminate].
  - exists (take 10 (newestFirst (links w1))), w1.
    split; [reflexivity|]. split; [rewrite length_take; lia|].
    pose proof (newestFirst_sorted (links w1)) as Hsorted.
    rewrite <- (take_drop 10 (newestFirst (links w1))) in Hsorted.
    split; [eapply StronglySorted_app_1_l, Hsorted|].
    split; [exact Hcache|]. split; [exact Hlinks|]. intros _.
    exists (drop 10 (newestFirst (links w1))). split; [|split].
    + rewrite take_drop. apply newestFirst_perm.
    + intros Hrest. rewrite length_take.
      destruct (decide (length (newestFirst (links w1)) ≤ 10)%nat) as [Hle|Hgt]; [|lia].
      exfalso. apply Hrest. apply drop_ge. exact Hle.
    + intros x y Hx Hy.
      apply (StronglySorted_app_1_elem_of newerFirst _ _ x y Hsorted Hx Hy).
Qed.

Lemma listing_shows_the_newest_witness :
  ∃ found w' rest,
    getRecentLinks warmWorld = (Ok found, w') ∧
    Permutation (links w') (found ++ rest).
Proof.
  destruct (listing_shows_the_newest warmWorld)
    as (found & w' & Hrun & _ & _ & _ & _ & Hrest).
  destruct (Hrest eq_refl) as (rest & Hperm & _).
  exists found, w', rest. split; [exact Hrun | exact Hperm].
Defined.

(** ** The route without cache *)

Lemma direct_unfold (code : string) (w : World) :
  code ≠ "" →
  DirectRoute.GET code w =
    match prisma_link_findUnique code w with
    | (Throw _, w1) => (Ok (Plain 500 "Internal Server Error"), emit (redirectLog code) w1)
    | (Ok None, w1) => (Ok (Plain 404 "Short link not found"), w1)
    | (Ok (Some l), w1) =>
        if pastExpiry l (clock w1)
        then (Ok (Plain 410 "This short link has expired."), w1)
        else
          match prisma_link_update (ById (id l)) w1 with
          | (Ok _, w2) =>
              if String.eqb (url l) "" then (Ok NoResponse, w2)
              else (Ok (Redirect (url l)), w2)
          | (Throw _, w2) =>
              (Ok (Plain 500 "Internal Server Error"), emit (redirectLog code) w2)
          end
    end.
Proof.
  intros Hne. unfold DirectRoute.GET.
  destruct (String.eqb code "") eqn:E; [apply String.eqb_eq in E; congruence|].
  unfold try_catch, bind, now, redirectLog, console_error, modify, ret.
  destruct (prisma_link_findUnique code w) as [[[l|]|x] w1]; try reflexivity.
  destruct (pastExpiry l (clock w1)); [reflexivity|].
  destruct (prisma_link_update (ById (id l)) w1) as [[[]|x] w2]; [|reflexivity].
  destruct (String.eqb (url l) ""); reflexivity.
Qed.

(** X11: the route without cache never redirects unchecked or uncounted.
    Whatever the surroundings do, a redirect means that the store returned
    a row for the code, that the row had not expired when it was read, and
    that its click update went through before the answer; when that update
    throws, the visitor gets 500 instead of the redirect. *)
Theorem direct_redirect_is_checked_and_counted (code : string) (w : World) :
  (∀ u w', DirectRoute.GET code w = (Ok (Redirect u), w') →
     ∃ l w1, prisma_link_findUnique code w = (Ok (Some l), w1) ∧
             url l = u ∧ pastExpiry l (clock w1) = false ∧
             prisma_link_update (ById (id l)) w1 = (Ok tt, w')) ∧
  (∀ l w1 x w2,
     code ≠ "" →
     prisma_link_findUnique code w = (Ok (Some l), w1) →
     pastExpiry l (clock w1) = false →
     prisma_link_update (ById (id l)) w1 = (Throw x, w2) →
     DirectRoute.GET code w
       = (Ok (Plain 500 "Internal Server Error"), emit (redirectLog code) w2)).
Proof.
  split.
  - intros u w'. destruct (decide (code = "")) as [->|Hne]; [discriminate|].
    rewrite direct_unfold by exact Hne.
    destruct (prisma_link_findUnique code w) as [[[l|]|x] w1]; try discriminate.
    destruct (pastExpiry l (clock w1)) eqn:Hexp; [discriminate|].
    destruct (prisma_link_update (ById (id l)) w1) as [[[]|x] w2] eqn:Hup; [|discriminate].
    destruct (String.eqb (url l) ""); [discriminate|].
    intros H. exists l, w1.
    assert (url l = u) by congruence. assert (w2 = w') by congruence. subst.
    auto.
  - intros l w1 x w2 Hne Hfind Hexp Hup.
    rewrite direct_unfold, Hfind, Hexp, Hup by exact Hne. reflexivity.
Qed.

Lemma direct_redirect_is_checked_and_counted_witness :
  DirectRoute.GET "AbC123" (mkWorld [sampleLink] 1 ∅ 1000 [] [calm; mkAmbient 0 [] true] [] utc)
  = (Ok (Plain 500 "Internal Server Error"),
     emit (redirectLog "AbC123")
          (mkWorld [sampleLink] 1 ∅ 1000 [] []
                   [EFindUnique "AbC123"; EUpdate (ById 0)] utc)).
Proof.
  apply (proj2 (direct_redirect_is_checked_and_counted "AbC123"
                  (mkWorld [sampleLink] 1 ∅ 1000 [] [calm; mkAmbient 0 [] true] [] utc))
           sampleLink
           (mkWorld [sampleLink] 1 ∅ 1000 [] [mkAmbient 0 [] true] [EFindUnique "AbC123"] utc)
           StoreError).
  - discriminate.
  - vm_compute. reflexivity.
  - vm_compute. reflexivity.
  - vm_compute. reflexivity.
Defined.

(** X12: on a cold cache the cached route ends where the route without
    cache ends.  In a world where nothing else happens and no call takes
    time, with unique keys, the row's counter below its ceiling and its
    [expiresAt] an instant a [Date] can hold, a visit through the cached
    route with its deferred work gives the same answer and the same table
    as a visit through the route without cache. *)
Theorem cold_visit_agrees_with_direct (code : string) (w : World) :
  sound w → ambient w = [] → cold (cacheKey code) w →
  (∀ l, findByCode code (links w) = Some l → clicks l < int4_max ∧ datable l) →
  fst (serve code w) = fst (DirectRoute.GET code w) ∧
  links (serve code w).2 = links (DirectRoute.GET code w).2.
Proof.
  intros Hsound Hcalm Hcold Hroom.
  destruct (decide (code = "")) as [->|Hne]; [split; reflexivity|].
  assert (Hq : Forall quiet (ambient w)) by (rewrite Hcalm; constructor).
  rewrite serve_unfold, (GET_cold code w Hne Hq Hcold), direct_unfold by exact Hne.
  cbv zeta.
  rewrite prisma_link_findUnique_quiet by (apply hd_quiet, Hq).
  rewrite !passed_calm by (cbn [passed ambient]; rewrite ?Hcalm; reflexivity).
  cbn [clock links].
  destruct (findByCode code (links w)) as [l|] eqn:Hfind; [|split; reflexivity].
  destruct (pastExpiry l (clock w)); [split; reflexivity|].
  destruct (findByCode_split _ _ _ Hfind) as (before & after & Hrows & Hbefore & Hcode).
  specialize (Hroom l eq_refl). destruct Hroom as [Hroom _]. apply Z.ltb_lt in Hroom.
  assert (Hinc : incrementRow (ById (id l)) (links w)
                 = Bumped (before ++ bump l :: after)).
  { rewrite Hrows, incrementRow_by_id, Hroom by (rewrite <- Hrows; apply Hsound).
    reflexivity. }
  rewrite prisma_link_update_quiet by (split; reflexivity).
  cbn [links]. rewrite Hinc.
  destruct (String.eqb (url l) "");
    (rewrite runTasks_one, runTask_fill_quiet
       by (first [constructor | apply cacheTtl_pos]);
     cbn [links passed]; rewrite Hinc; split; reflexivity).
Qed.

Lemma cold_visit_agrees_with_direct_witness :
  fst (serve "soon01" lastSecondWorld) = fst (DirectRoute.GET "soon01" lastSecondWorld) ∧
  links (serve "soon01" lastSecondWorld).2
    = links (DirectRoute.GET "soon01" lastSecondWorld).2.
Proof.
  apply (cold_visit_agrees_with_direct "soon01" lastSecondWorld).
  - vm_compute. repeat constructor; set_solver.
  - reflexivity.
  - vm_compute. exact I.
  - intros l H. vm_compute in H. injection H as <-. split; reflexivity.
Defined.

(** ** The seed script *)

Lemma seed_unfold (w : World) :
  Seed.main w =
    match prisma_link_create "https://example.com/expired-test" "exp123"
            (Some (clock w - Seed.oneDay)) w with
    | (Ok _, w1) =>
        (Ok (Seed.Seeded "Successfully created an expired link with code: exp123"), w1)
    | (Throw e, w1) => (Ok (Seed.Exit1 e), w1)
    end.
Proof.
  unfold Seed.main, try_catch, bind, now, ret.
  destruct (prisma_link_create _ _ _ w) as [[l|e] w1]; reflexivity.
Qed.



(** X14: the seed script cannot be run twice.  On a table that already
    holds a row ["exp123"], an undisturbed run meets the unique index, ends
    through its [catch] with exit code 1 and leaves the table as it was. *)
Theorem seed_is_not_repeatable (w : World) :
  quiet (hd calm (ambient w)) → is_Some (findByCode "exp123" (links w)) →
  ∃ w', Seed.main w = (Ok (Seed.Exit1 UniqueViolation), w') ∧ links w' = links w.
Proof.
  intros Hq [l Hl]. rewrite seed_unfold, prisma_link_create_unfold.
  rewrite (await_quiet _ _ _ Hq). unfold insertRow. cbn [passed links].
  rewrite Hl. eexists. split; reflexivity.
Qed.

Lemma seed_is_not_repeatable_witness :
  ∃ w', Seed.main (snd (Seed.main emptyWorld)) = (Ok (Seed.Exit1 UniqueViolation), w') ∧
        links w' = links (snd (Seed.main emptyWorld)).
Proof.
  apply (seed_is_not_repeatable (snd (Seed.main emptyWorld))).
  - vm_compute. split; reflexivity.
  - vm_compute. eexists. reflexivity.
Defined.

(** ** The dashboard *)

Lemma listing_answer (w : World) :
  ∃ found w', LinksRoute.GET w = (Ok (LinksRoute.LinksJson found), w') ∧
              (length found ≤ 10)%nat ∧
              (fault (hd calm (ambient w)) = true → found = []).
Proof.
  unfold LinksRoute.GET, try_catch, bind at 1.
  unfold getRecentLinks, try_catch, prisma_link_findMany, bind at 1.
  unfold await. destruct (fault (hd calm (ambient w))).
  - eexists [], _. split; [reflexivity|]. split; [cbn; lia | reflexivity].
  - eexists _, _. split; [reflexivity|]. split; [|discriminate].
    rewrite length_take. lia.
Qed.

(** X15: what the dashboard shows.  The grid appears only when the
    fetch has settled without error on a body whose [links] is not empty,
    and then holds one card per row, in order.  An empty list, a body
    without [links] and a failed fetch all give the same notice that no
    links exist yet -- a failed fetch even when rows had been shown before.
    With the listing route behind it the grid never exceeds ten cards, and
    a store failure on the server ends in that same notice. *)
Theorem dashboard_grid_or_notice (earlier : option LinksRoute.Response) (w : World) :
  (∀ s cards,
     RecentLinks.render s = RecentLinks.Grid cards →
     RecentLinks.isLoading s = false ∧ RecentLinks.error s = false ∧
     ∃ found, RecentLinks.data s = Some (LinksRoute.LinksJson found) ∧
              found ≠ [] ∧ cards = map RecentLinks.card found) ∧
  RecentLinks.render (RecentLinks.afterFetch earlier None) = RecentLinks.EmptyNotice ∧
  (∀ status msg,
     RecentLinks.render
       (RecentLinks.afterFetch earlier (Some (LinksRoute.ErrorJson status msg)))
     = RecentLinks.EmptyNotice) ∧
  ∃ found w',
    LinksRoute.GET w = (Ok (LinksRoute.LinksJson found), w') ∧
    let view := RecentLinks.render
                  (RecentLinks.afterFetch earlier (Some (LinksRoute.LinksJson found))) in
    (found = [] → view = RecentLinks.EmptyNotice) ∧
    (found ≠ [] → view = RecentLinks.Grid (map RecentLinks.card found) ∧
                  (length (map RecentLinks.card found) ≤ 10)%nat) ∧
    (fault (hd calm (ambient w)) = true → view = RecentLinks.EmptyNotice).
Proof.
  split; [|split; [|split]].
  - intros s cards. unfold RecentLinks.render.
    destruct (RecentLinks.isLoading s); [discriminate|].
    destruct (RecentLinks.error s); [discriminate|]. cbn [orb].
    destruct (RecentLinks.data s) as [[found|status msg]|]; cbn [RecentLinks.linksOf];
      try discriminate.
    destruct found as [|l found]; [discriminate|].
    intros H. split; [reflexivity|]. split; [reflexivity|].
    exists (l :: found). split; [reflexivity|]. split; [discriminate|].
    injection H as <-. reflexivity.
  - reflexivity.
  - reflexivity.
  - destruct (listing_answer w) as (found & w' & Hget & Hlen & Hfault).
    exists found, w'. split; [exact Hget|]. cbv zeta.
    assert (Hempty : found = [] →
                     RecentLinks.render
                       (RecentLinks.afterFetch earlier (Some (LinksRoute.LinksJson found)))
                     = RecentLinks.EmptyNotice) by (intros ->; reflexivity).
    split; [exact Hempty|]. split; [|intros Hf; apply Hempty, Hfault, Hf].
    intros Hne. destruct found as [|l found]; [congruence|].
    split; [reflexivity|]. rewrite length_map. exact Hlen.
Qed.

(** ** The form *)

Lemma createShortLink_message (v : string → bool) (formUrl : option string) (w : World) :
  ∃ r w', createShortLink v formUrl w = (Ok r, w') ∧
          ((∃ msg, r = failed msg ∧ msg ≠ "") ∨ (∃ l, r = succeeded l ∧ l ∈ links w')).
Proof.
  destruct (createShortLink_outcome v formUrl w) as (r & w' & Hrun & Hshape).
  exists r, w'. split; [exact Hrun|].
  destruct Hshape as [[msg ->]|Hok]; [left | right; exact Hok].
  exists msg. split; [reflexivity|]. intros ->. revert Hrun.
  destruct formUrl as [u|]; [|discriminate].
  destruct (decide (u = "")) as [->|Hne]; [discriminate|].
  destruct (v u) eqn:Hv.
  - rewrite createShortLink_valid by assumption. unfold unexpected.
    destruct (uniqueCodeLoop 5 "" w) as [[[c [|]]|x] w1]; try discriminate.
    destruct (prisma_link_create _ _ _ w1) as [[l|x] w2]; discriminate.
  - unfold createShortLink. destruct u; [congruence|]. rewrite Hv. discriminate.
Qed.

(** X16: a submission always settles.  Whatever the server action does
    -- return any result or throw -- [handleSubmit] ends normally with the
    spinner off.  A short url is shown only when the action returned a
    link, it is the origin followed by that link's code, and only then is
    the input cleared; when the action throws, the user is told that the
    server could not be reached and keeps the text typed. *)
Theorem submit_always_settles (action : option string → M ActionResult)
    (origin : string) (st : CreateLinkForm.State) (w : World) :
  ∃ st' notices w',
    CreateLinkForm.handleSubmit action origin st w = (Ok (st', notices), w') ∧
    CreateLinkForm.isLoading st' = false ∧
    (CreateLinkForm.shortUrl st' = None → CreateLinkForm.url st' = CreateLinkForm.url st) ∧
    (∀ shown, CreateLinkForm.shortUrl st' = Some shown →
       CreateLinkForm.url st' = "" ∧
       ∃ r l, action (Some (CreateLinkForm.url st)) w = (Ok r, w') ∧
              link r = Some l ∧ shown = origin +:+ "/" +:+ shortCode l) ∧
    (∀ x w0, action (Some (CreateLinkForm.url st)) w = (Throw x, w0) →
       st' = CreateLinkForm.mkState (CreateLinkForm.url st) false None ∧
       notices = [CreateLinkForm.ConsoleError "Submission failed:";
                  CreateLinkForm.ToastError
                    "Failed to connect to the server. Please try again later."]).
Proof.
  unfold CreateLinkForm.handleSubmit, try_catch, bind.
  destruct (action (Some (CreateLinkForm.url st)) w) as [[r|x] w0] eqn:Hact.
  - destruct (truthy (error r)).
    + eexists _, _, _. split; [reflexivity|]. cbn.
      split; [reflexivity|]. split; [reflexivity|]. split; [discriminate | discriminate].
    + destruct (success r) as [[|]|]; [destruct (link r) as [l|] eqn:Hlink|..];
        eexists _, _, _; (split; [reflexivity|]); cbn;
        (split; [reflexivity|]);
        (split; [first [reflexivity | discriminate]|]);
        (split; [|discriminate]);
        try discriminate.
      intros shown Hshown. split; [reflexivity|].
      exists r, l. split; [reflexivity|]. split; [exact Hlink | congruence].
  - eexists _, _, _. split; [reflexivity|]. cbn.
    split; [reflexivity|]. split; [reflexivity|]. split; [discriminate|].
    intros x0 w1 _. split; reflexivity.
Qed.

(** X17: with [createShortLink] behind it, the form reports exactly what
    the action did.  Every submission raises exactly one toast: the
    action's own error message, with the text kept in the input and no
    short url, or the success toast, with the input cleared and the short
    url built from the code of a row that is now in the table.  The
    could-not-connect branch is never taken on account of the action. *)
Theorem submit_reports_the_action (v : string → bool) (origin : string)
    (st : CreateLinkForm.State) (w : World) :
  ∃ r w' st' notices,
    createShortLink v (Some (CreateLinkForm.url st)) w = (Ok r, w') ∧
    CreateLinkForm.handleSubmit (createShortLink v) origin st w
      = (Ok (st', notices), w') ∧
    ((∃ msg, r = failed msg ∧ msg ≠ "" ∧
             notices = [CreateLinkForm.ToastError msg] ∧
             st' = CreateLinkForm.mkState (CreateLinkForm.url st) false None) ∨
     (∃ l, r = succeeded l ∧ l ∈ links w' ∧
           notices = [CreateLinkForm.ToastSuccess "URL shortened successfully!"] ∧
           st' = CreateLinkForm.mkState "" false
                   (Some (origin +:+ "/" +:+ shortCode l)))).
Proof.
  destruct (createShortLink_message v (Some (CreateLinkForm.url st)) w)
    as (r & w' & Hrun & Hshape).
  unfold CreateLinkForm.handleSubmit, try_catch, bind. rewrite Hrun.
  destruct Hshape as [(msg & -> & Hmsg)|(l & -> & Hin)].
  - destruct msg as [|a msg]; [congruence|].
    eexists _, _, _, _. split; [reflexivity|]. split; [reflexivity|].
    left. eexists. repeat split. exact Hmsg.
  - eexists _, _, _, _. split; [reflexivity|]. split; [reflexivity|].
    right. exists l. repeat split. exact Hin.
Qed.

Lemma createShortLink_issues_witness :
  ∃ codes tail,
    trace (createShortLink httpScheme (Some "https://example.com/a") raceWorld).2
      = (trace raceWorld ++ probes codes ++ tail)%list ∧
    (length codes ≤ 5)%nat ∧
    (tail = [] ∨
     tail = [EConsoleError "Failed to create short link:"] ∨
     ∃ front c e,
       codes = (front ++ [c])%list ∧
       (tail = [ECreate "https://example.com/a" c e; ERevalidate "/"] ∨
        tail = [ECreate "https://example.com/a" c e;
                EConsoleError "Failed to create short link:"])).
Proof.
  apply (createShortLink_issues httpScheme "https://example.com/a" raceWorld).
  - discriminate.
  - reflexivity.
Defined.

(** ** Many visits on a warm cache *)

Lemma bumps_clicks (n : nat) (l : Link) :
  clicks (Nat.iter n bump l) = clicks l + Z.of_nat n ∧
  shortCode (Nat.iter n bump l) = shortCode l.
Proof.
  induction n as [|n [IHc IHs]]; [cbn; split; [lia | reflexivity]|].
  change (Nat.iter (S n) bump l) with (bump (Nat.iter n bump l)).
  cbn [bump clicks shortCode]. split; [lia | exact IHs].
Qed.

Lemma visits_warm (n : nat) (code u : string) (deadline : Z) (w : World)
    (before after : list Link) (l : Link) :
  code ≠ "" → u ≠ "" → ambient w = [] →
  cache w !! cacheKey code = Some (u, deadline) → clock w < deadline →
  links w = (before ++ l :: after)%list → findByCode code before = None →
  shortCode l = code → clicks l + Z.of_nat n ≤ int4_max →
  let wn := visits n code w in
  ambient wn = [] ∧ cache wn = cache w ∧ clock wn = clock w ∧
  links wn = (before ++ Nat.iter n bump l :: after)%list ∧
  trace wn = (trace w ++
              mjoin (replicate n [ECacheGet (cacheKey code);
                                  EUpdate (ByShortCode code)]))%list.
Proof.
  intros Hne Hu Hcalm Hentry Hlive Hrows Hbefore Hcode. cbv zeta.
  induction n as [|n IH]; intros Hroom.
  - cbn [visits Nat.iter replicate mjoin]. rewrite app_nil_r. auto.
  - destruct (IH ltac:(lia)) as (Ha & Hc & Hk & Hl & Ht).
    destruct (bumps_clicks n l) as [Hclicks Hsc].
    change (visits (S n) code w) with ((serve code (visits n code w)).2).
    rewrite (serve_warm code u deadline (visits n code w) before after (Nat.iter n bump l)).
    + rewrite !passed_calm by (cbn [passed ambient]; rewrite ?Ha; reflexivity).
      cbn [snd setLinks ambient cache clock links trace].
      change (Nat.iter (S n) bump l) with (bump (Nat.iter n bump l)).
      rewrite Hc, Hk, Ht.
      split; [reflexivity|]. split; [reflexivity|]. split; [reflexivity|].
      split; [reflexivity|].
      rewrite replicate_S_end, join_app. cbn [mjoin list_join app].
      rewrite ?app_nil_r, <- ?app_assoc. reflexivity.
    + exact Hne.
    + exact Hu.
    + rewrite Ha. constructor.
    + rewrite Hc. exact Hentry.
    + rewrite Hk, Ha. cbn [hd latency calm]. lia.
    + exact Hl.
    + exact Hbefore.
    + rewrite Hsc. exact Hcode.
    + rewrite Hclicks. lia.
Qed.

(** X19: visits to a valid link on a warm cache are all counted and none
    reads the store.  In a world where nothing else happens and no call
    takes time, [n] visits in a row to the code of a link that has not
    expired, with a live cache entry whose text is not JSON, issue [n]
    cache lookups and [n] click updates and nothing else, and leave the
    row's counter exactly [n] higher. *)
Theorem warm_visits_are_all_counted (n : nat) (code u : string) (deadline : Z)
    (w : World) (l : Link) :
  code ≠ "" → u ≠ "" → plainText u = true → ambient w = [] →
  cache w !! cacheKey code = Some (u, deadline) → clock w < deadline →
  findByCode code (links w) = Some l → pastExpiry l (clock w) = false →
  clicks l + Z.of_nat n ≤ int4_max →
  ∃ l', findByCode code (links (visits n code w)) = Some l' ∧
        clicks l' = clicks l + Z.of_nat n ∧
        trace (visits n code w)
          = (trace w ++ mjoin (replicate n [ECacheGet (cacheKey code);
                                            EUpdate (ByShortCode code)]))%list.
Proof.
  intros Hne Hu _ Hcalm Hentry Hlive Hfind _ Hroom.
  destruct (findByCode_split _ _ _ Hfind) as (before & after & Hrows & Hbefore & Hcode).
  destruct (visits_warm n code u deadline w before after l Hne Hu Hcalm Hentry Hlive
              Hrows Hbefore Hcode Hroom) as (_ & _ & _ & Hl & Ht).
  destruct (bumps_clicks n l) as [Hclicks Hsc].
  exists (Nat.iter n bump l). split; [|split; [exact Hclicks | exact Ht]].
  rewrite Hl, findByCode_app by exact Hbefore.
  apply findByCode_here. rewrite Hsc. exact Hcode.
Qed.

Lemma warm_visits_are_all_counted_witness :
  ∃ l', findByCode "AbC123" (links (visits 5 "AbC123" warmWorld)) = Some l' ∧
        clicks l' = clicks sampleLink + Z.of_nat 5 ∧
        trace (visits 5 "AbC123" warmWorld)
          = (trace warmWorld ++
             mjoin (replicate 5 [ECacheGet (cacheKey "AbC123");
                                 EUpdate (ByShortCode "AbC123")]))%list.
Proof.
  apply (warm_visits_are_all_counted 5 "AbC123" "https://example.com/a" 5000
           warmWorld sampleLink).
  - discriminate.
  - discriminate.
  - reflexivity.
  - reflexivity.
  - vm_compute. reflexivity.
  - vm_compute. reflexivity.
  - reflexivity.
  - reflexivity.
  - vm_compute. discriminate.
Defined.
